(** * Rush kernel: scheduler, task control block and stack frame builder

    A shallow embedding of [src/kernel/sched.c], [src/kernel/task.c],
    [src/kernel/task.h] and [src/arch/task_arch.c], followed by the
    properties of the run queue, of the scheduling step and of the initial
    stack image.

    Conventions.
    - C integers are [Z] with the wrap-around written out ([wrap8],
      [wrap64]).
    - A [task_t *] is the address of the task, a [Z]; [NULL] is [0].
    - The scheduler (sched.c, task.c) sees tasks as structs: the task
      store is a finite map from addresses to [task_t] records.
    - The stack frame builder (task_arch.c) casts the stack block to a
      [task_t *] and writes through computed addresses: it is modelled on
      a byte-addressed memory.
    - An access outside an array, or through a pointer that holds no
      task, is undefined in C: the model stops with [Fault]. *)

From Stdlib Require Import ZArith Lia List Bool.
From stdpp Require Import base option list gmap.

Local Open Scope Z_scope.

(* ===================================================================== *)
(** * Part I: definitions *)
(* ===================================================================== *)

(** ** Machine integers *)

Definition wrap8 (z : Z) : Z := z mod 2 ^ 8.
Definition wrap64 (z : Z) : Z := z mod 2 ^ 64.

Definition NULL : Z := 0.

(** ** Results of running code *)

(** [Fault]: the C code left defined behaviour (out-of-bounds array access,
    dereference of a pointer that holds no task).  [OutOfFuel]: the loop
    bound of the model was reached. *)
Inductive result (A : Type) : Type :=
| Ok (a : A)
| Fault
| OutOfFuel.

Arguments Ok {A} a.
Arguments Fault {A}.
Arguments OutOfFuel {A}.

Definition bind {A B : Type} (r : result A) (k : A -> result B) : result B :=
  match r with
  | Ok a => k a
  | Fault => Fault
  | OutOfFuel => OutOfFuel
  end.

Notation "'do' x <- e ; k" := (bind e (fun x => k))
  (at level 10, x name, e at level 100, k at level 200).

(** ** task.h: the task control block *)

Inductive task_state_t : Type := READY | RUNNING | BLOCKED.

Record task_id_t : Type := mk_task_id {
  vms_id : Z;      (* uint32_t *)
  thread_id : Z    (* uint32_t *)
}.

(** [thread_t] is declared in processor.h, which is not part of the sources
    at hand; its fields are the ones task.c writes: [ra], [sp] and the
    twelve callee-saved registers [s[0..11]]. *)
Record thread_t : Type := mk_thread {
  ra : Z;          (* uint64_t *)
  sp : Z;          (* uint64_t *)
  s : list Z       (* uint64_t s[12] *)
}.

Record task_t : Type := mk_task {
  task_id : task_id_t;
  prio : Z;        (* uint8_t *)
  state : task_state_t;
  thread : thread_t
}.

Definition set_state (t : task_t) (st : task_state_t) : task_t :=
  mk_task (task_id t) (prio t) st (thread t).

Definition set_thread (t : task_t) (th : thread_t) : task_t :=
  mk_task (task_id t) (prio t) (state t) th.

Definition set_task_id (t : task_t) (i : task_id_t) : task_t :=
  mk_task i (prio t) (state t) (thread t).

Definition set_ra (th : thread_t) (v : Z) : thread_t := mk_thread v (sp th) (s th).
Definition set_sp (th : thread_t) (v : Z) : thread_t := mk_thread (ra th) v (s th).

(** [th.s[i] = v] for a constant index [i]; the array has twelve cells. *)
Definition set_s (th : thread_t) (i : nat) (v : Z) : thread_t :=
  mk_thread (ra th) (sp th) (<[i := v]> (s th)).

(** The status codes of [ax_return_t] come from common.h, which is not part
    of the sources at hand.  [AX_OK] is the only one task.c names; the
    comment of [task_create] speaks of a failure value -1. *)
Inductive ax_return_t : Type := AX_OK | AX_FAILURE.

(** ** sched.c: the scheduler state *)

Definition MAX_PRIO : Z := 255.
Definition IDLE_PRIO : Z := 0.

(** The statically initialised [idle_task].  The identity fields are
    [(uint64_t)NULL]; the thread context has static storage and no
    initialiser, so it is zero.  (The initialiser also names a [.stack]
    member, which [task_t] of task.h does not have.) *)
Definition zero_thread : thread_t := mk_thread 0 0 (replicate 12 0).

Definition idle_task : task_t :=
  mk_task (mk_task_id NULL NULL) IDLE_PRIO READY zero_thread.

(** [tasks]: the task structs in memory, by address.
    [run_queue]: [static task_t *run_queue[MAX_PRIO]].
    [current_task]: [static task_t *current_task].
    [cpu]: the live [ra], [sp] and [s0..s11] registers, which the context
    switch saves and restores. *)
Record sched_t : Type := mk_sched {
  tasks : gmap Z task_t;
  run_queue : list Z;
  current_task : Z;
  cpu : thread_t
}.

Definition with_tasks (k : sched_t) (ts : gmap Z task_t) : sched_t :=
  mk_sched ts (run_queue k) (current_task k) (cpu k).

Definition with_run_queue (k : sched_t) (rq : list Z) : sched_t :=
  mk_sched (tasks k) rq (current_task k) (cpu k).

Definition with_current_task (k : sched_t) (p : Z) : sched_t :=
  mk_sched (tasks k) (run_queue k) p (cpu k).

Definition with_cpu (k : sched_t) (th : thread_t) : sched_t :=
  mk_sched (tasks k) (run_queue k) (current_task k) th.

(** [*task] for a [task_t *task]. *)
Definition deref (k : sched_t) (task : Z) : result task_t :=
  if task =? NULL then Fault
  else match tasks k !! task with
       | Some t => Ok t
       | None => Fault
       end.

(** [run_queue[i]] as an rvalue: defined for [0 <= i < MAX_PRIO] only. *)
Definition rq_read (rq : list Z) (i : Z) : result Z :=
  if (0 <=? i) && (i <? MAX_PRIO) then
    match rq !! Z.to_nat i with
    | Some p => Ok p
    | None => Fault
    end
  else Fault.

(** [run_queue[i] = p]. *)
Definition rq_write (rq : list Z) (i : Z) (p : Z) : result (list Z) :=
  if (0 <=? i) && (i <? MAX_PRIO) && (i <? Z.of_nat (length rq)) then
    Ok (<[Z.to_nat i := p]> rq)
  else Fault.

(** The loop of [sched_get_next_task], from the value of [prio_idx] on
    entry to its value at the [break].  [prio_idx] is a [uint8_t], so the
    decrement wraps and the guard [prio_idx >= 0] is evaluated on a value
    in [0, 255]. *)
Fixpoint scan (fuel : nat) (rq : list Z) (prio_idx : Z) : result Z :=
  match fuel with
  | O => OutOfFuel
  | S fuel' =>
      if 0 <=? prio_idx then
        do slot <- rq_read rq prio_idx;
        if negb (slot =? NULL) then Ok prio_idx
        else scan fuel' rq (wrap8 (prio_idx - 1))
      else Ok prio_idx
  end.

(** A [uint8_t] has 256 values; the scan visits each at most once before
    it stops or leaves the array. *)
Definition scan_fuel : nat := 256.

Definition sched_get_next_task (k : sched_t) : result Z :=
  do prio_idx <- scan scan_fuel (run_queue k) (wrap8 (MAX_PRIO - 1));
  rq_read (run_queue k) prio_idx.

Definition sched_get_current_task (k : sched_t) : Z := current_task k.

Definition sched_set_current_task (task : Z) (k : sched_t) : sched_t :=
  with_current_task k task.

Definition sched_add_task (task : Z) (k : sched_t) : result sched_t :=
  do t <- deref k task;
  do rq <- rq_write (run_queue k) (prio t) task;
  Ok (with_run_queue k rq).

Definition sched_remove_task (task : Z) (k : sched_t) : result sched_t :=
  do t <- deref k task;
  do rq <- rq_write (run_queue k) (prio t) NULL;
  Ok (with_run_queue k rq).

(** Modelled from the spec: [task_set_state] is called by [sched_run] but
    defined in no source file at hand.  Spec 4.1: "set_state(task,
    new_state): pure field mutation; no validation of transition
    legality". *)
Definition task_set_state (task : Z) (st : task_state_t) (k : sched_t)
  : result sched_t :=
  do t <- deref k task;
  Ok (with_tasks k (<[task := set_state t st]> (tasks k))).

(** Modelled from the spec: [_switch_to] is the platform's assembly
    routine, declared [extern] in sched.c.  Spec 4.4: "save all
    callee-saved registers and the stack pointer of the outgoing context
    into its record, then load the stack pointer and callee-saved registers
    of the incoming context".  The arguments are the tasks whose [thread]
    members are passed. *)
Definition _switch_to (prev_task next_task : Z) (k : sched_t) : result sched_t :=
  do p <- deref k prev_task;
  let k1 := with_tasks k (<[prev_task := set_thread p (cpu k)]> (tasks k)) in
  do n <- deref k1 next_task;
  Ok (with_cpu k1 (thread n)).

Definition sched_switch (prev_task new_task : Z) (k : sched_t) : result sched_t :=
  _switch_to prev_task new_task k.

Definition sched_run (k : sched_t) : result sched_t :=
  let prev_task := sched_get_current_task k in
  do new_task <- sched_get_next_task k;
  do k1 <- task_set_state new_task RUNNING k;
  let k2 := sched_set_current_task new_task k1 in
  sched_switch prev_task new_task k2.

(** [sched_init]; [idle] is [&idle_task], an address fixed at link time. *)
Definition sched_init (idle : Z) (k : sched_t) : result sched_t :=
  let k1 := with_current_task k idle in
  sched_add_task idle k1.

(** The scheduler's memory before [sched_init]: the statics of sched.c are
    zero, and [idle_task] holds its initialiser.  [ts] are the other tasks
    of the system. *)
Definition sched_boot (idle : Z) (ts : gmap Z task_t) : sched_t :=
  mk_sched (<[idle := idle_task]> ts) (replicate (Z.to_nat MAX_PRIO) NULL)
           NULL zero_thread.

(** ** task.c: task creation *)

Section TaskCreate.

(** [STACK_SIZE], the number of cells of a [stack_t], is defined in a
    header that is not part of the sources at hand. *)
Variable STACK_SIZE : Z.

(** [task_create] of task.c, on the struct [*task].  [fn] and [stack] are
    addresses; the casts to [uint64_t] keep their value.  task.c names the
    identity fields [vm_id] and [thread_id]; they are the two members of
    [task_id] in task.h. *)
Definition task_create (task : task_t) (fn : Z) (stack : Z)
  : task_t * ax_return_t :=
  let task := set_task_id task (mk_task_id 0 (thread_id (task_id task))) in
  let task := set_task_id task (mk_task_id (vms_id (task_id task)) 0) in
  let task := set_thread task (set_ra (thread task) fn) in
  let task := set_thread task
                (set_sp (thread task) (wrap64 (stack + STACK_SIZE - 1))) in
  let task := set_thread task (set_s (thread task) 0 0) in
  let task := set_thread task (set_s (thread task) 1 0) in
  let task := set_thread task (set_s (thread task) 2 0) in
  let task := set_thread task (set_s (thread task) 3 0) in
  let task := set_thread task (set_s (thread task) 4 0) in
  let task := set_thread task (set_s (thread task) 5 0) in
  let task := set_thread task (set_s (thread task) 6 0) in
  let task := set_thread task (set_s (thread task) 7 0) in
  let task := set_thread task (set_s (thread task) 8 0) in
  let task := set_thread task (set_s (thread task) 9 0) in
  let task := set_thread task (set_s (thread task) 10 0) in
  let task := set_thread task (set_s (thread task) 11 0) in
  (task, AX_OK).

End TaskCreate.

(** ** task_arch.c: byte-addressed memory *)

(** Memory maps an address to a byte.  A 64-bit access touches the eight
    bytes from its address on, least significant first (RISC-V is
    little-endian); addresses wrap at [2^64]. *)
Definition mem : Type := Z -> Z.

Definition store8 (m : mem) (a b : Z) : mem :=
  fun x => if x =? a then b else m x.

Fixpoint store_le (n : nat) (m : mem) (a v : Z) : mem :=
  match n with
  | O => m
  | S n' => store_le n' (store8 m a (v mod 256)) (wrap64 (a + 1)) (v / 256)
  end.

Fixpoint load_le (n : nat) (m : mem) (a : Z) : Z :=
  match n with
  | O => 0
  | S n' => m a mod 256 + 256 * load_le n' m (wrap64 (a + 1))
  end.

(** [*(uint64_t * )a = v] and [*(uint64_t * )a]. *)
Definition store64 (m : mem) (a v : Z) : mem := store_le 8 m a v.
Definition load64 (m : mem) (a : Z) : Z := load_le 8 m a.

(** ** task_arch.c: the register-frame constants *)

(** The constants task_arch.c takes from common.h, offsets.h and
    processor.h, none of which is part of the sources at hand, and the
    addresses of the two symbols it stores.  [TASK_THREAD_SP] is the offset
    of [thread.sp] in [task_t]. *)
Class arch : Type := mk_arch {
  LWORD_SIZE : Z;
  DWORD_SIZE : Z;
  KERNEL_STACK_FRAME_LENGTH : Z;
  KERNEL_STACK_FRAME_MEPC : Z;
  KERNEL_STACK_FRAME_RA : Z;
  CALLER_STACK_FRAME_LENGTH : Z;
  CALLER_STACK_FRAME_T0 : Z;
  CALLER_STACK_FRAME_T1 : Z;
  CALLER_STACK_FRAME_T2 : Z;
  CALLER_STACK_FRAME_T3 : Z;
  CALLER_STACK_FRAME_T4 : Z;
  CALLER_STACK_FRAME_T5 : Z;
  CALLER_STACK_FRAME_T6 : Z;
  CALLER_STACK_FRAME_A0 : Z;
  CALLER_STACK_FRAME_A1 : Z;
  CALLER_STACK_FRAME_A2 : Z;
  CALLER_STACK_FRAME_A3 : Z;
  CALLER_STACK_FRAME_A4 : Z;
  CALLER_STACK_FRAME_A5 : Z;
  CALLER_STACK_FRAME_A6 : Z;
  CALLER_STACK_FRAME_A7 : Z;
  CALLEE_STACK_FRAME_LENGTH : Z;
  CALLEE_STACK_FRAME_S0 : Z;
  CALLEE_STACK_FRAME_S1 : Z;
  CALLEE_STACK_FRAME_S2 : Z;
  CALLEE_STACK_FRAME_S3 : Z;
  CALLEE_STACK_FRAME_S4 : Z;
  CALLEE_STACK_FRAME_S5 : Z;
  CALLEE_STACK_FRAME_S6 : Z;
  CALLEE_STACK_FRAME_S7 : Z;
  CALLEE_STACK_FRAME_S8 : Z;
  CALLEE_STACK_FRAME_S9 : Z;
  CALLEE_STACK_FRAME_S10 : Z;
  CALLEE_STACK_FRAME_S11 : Z;
  TASK_THREAD_SP : Z;
  task_runtime : Z;
  _ret_from_interrupt : Z
}.

Section StackInit.

Context {target : arch}.

(** [&task->thread.sp] for [task = (task_t * )stack]. *)
Definition sp_cell (stack : Z) : Z := wrap64 (stack + TASK_THREAD_SP).

(** [task->thread.sp = v]. *)
Definition sp_set (stack v : Z) (m : mem) : mem :=
  store64 m (sp_cell stack) v.

(** [task->thread.sp -= n]. *)
Definition sp_sub (stack n : Z) (m : mem) : mem :=
  store64 m (sp_cell stack) (wrap64 (load64 m (sp_cell stack) - n)).

(** [*(uint64_t * )(task->thread.sp + off) = v]. *)
Definition poke (stack off v : Z) (m : mem) : mem :=
  store64 m (wrap64 (load64 m (sp_cell stack) + off)) v.

(** [task_stack_init], statement by statement.  The function returns
    nothing; its results are the memory it leaves, and in it the cell
    [task->thread.sp]. *)
Definition task_stack_init (stack stack_size task_entry : Z) (m : mem) : mem :=
  let m := sp_set stack (wrap64 (stack + stack_size - LWORD_SIZE)) m in

  let m := sp_sub stack KERNEL_STACK_FRAME_LENGTH m in
  let m := poke stack KERNEL_STACK_FRAME_MEPC task_runtime m in
  let m := poke stack KERNEL_STACK_FRAME_RA 0 m in

  let m := sp_sub stack CALLER_STACK_FRAME_LENGTH m in
  let m := poke stack CALLER_STACK_FRAME_T0 0 m in
  let m := poke stack CALLER_STACK_FRAME_T1 0 m in
  let m := poke stack CALLER_STACK_FRAME_T2 0 m in
  let m := poke stack CALLER_STACK_FRAME_T3 0 m in
  let m := poke stack CALLER_STACK_FRAME_T4 0 m in
  let m := poke stack CALLER_STACK_FRAME_T5 0 m in
  let m := poke stack CALLER_STACK_FRAME_T6 0 m in
  let m := poke stack CALLER_STACK_FRAME_A0 task_entry m in
  let m := poke stack CALLER_STACK_FRAME_A1 0 m in
  let m := poke stack CALLER_STACK_FRAME_A2 0 m in
  let m := poke stack CALLER_STACK_FRAME_A3 0 m in
  let m := poke stack CALLER_STACK_FRAME_A4 0 m in
  let m := poke stack CALLER_STACK_FRAME_A5 0 m in
  let m := poke stack CALLER_STACK_FRAME_A6 0 m in
  let m := poke stack CALLER_STACK_FRAME_A7 0 m in

  let m := sp_sub stack LWORD_SIZE m in
  let m := poke stack DWORD_SIZE _ret_from_interrupt m in

  let m := sp_sub stack CALLEE_STACK_FRAME_LENGTH m in
  let m := poke stack CALLEE_STACK_FRAME_S0 0 m in
  let m := poke stack CALLEE_STACK_FRAME_S1 0 m in
  let m := poke stack CALLEE_STACK_FRAME_S2 0 m in
  let m := poke stack CALLEE_STACK_FRAME_S3 0 m in
  let m := poke stack CALLEE_STACK_FRAME_S4 0 m in
  let m := poke stack CALLEE_STACK_FRAME_S5 0 m in
  let m := poke stack CALLEE_STACK_FRAME_S6 0 m in
  let m := poke stack CALLEE_STACK_FRAME_S7 0 m in
  let m := poke stack CALLEE_STACK_FRAME_S8 0 m in
  let m := poke stack CALLEE_STACK_FRAME_S9 0 m in
  let m := poke stack CALLEE_STACK_FRAME_S10 0 m in
  let m := poke stack CALLEE_STACK_FRAME_S11 0 m in
  m.

(** The initial stack pointer the builder leaves in [task->thread.sp]. *)
Definition initial_sp (stack stack_size task_entry : Z) (m : mem) : Z :=
  load64 (task_stack_init stack stack_size task_entry m) (sp_cell stack).

End StackInit.

(** ** Vocabulary for the statements about the scheduler *)

(** The run queue has the [MAX_PRIO] cells of its declaration. *)
Definition queue_wf (k : sched_t) : Prop :=
  length (run_queue k) = Z.to_nat MAX_PRIO.

(** Cell [p] of the run queue contains the pointer [t]. *)
Definition slot_is (k : sched_t) (p t : Z) : Prop :=
  0 <= p < MAX_PRIO /\ run_queue k !! Z.to_nat p = Some t.

(** Level [p] holds the task [t]; level [p] holds no task. *)
Definition holds (k : sched_t) (p t : Z) : Prop := slot_is k p t /\ t <> NULL.
Definition empty_level (k : sched_t) (p : Z) : Prop := slot_is k p NULL.

(** The task at address [t] exists and is in state [st]. *)
Definition in_state (k : sched_t) (t : Z) (st : task_state_t) : Prop :=
  exists tk, tasks k !! t = Some tk /\ state tk = st.

(** The priority stored in the task at address [t]. *)
Definition has_prio (k : sched_t) (t p : Z) : Prop :=
  exists tk, tasks k !! t = Some tk /\ prio tk = p.

(** Sequences of [sched_add_task] and [sched_remove_task] calls. *)
Inductive call : Type :=
| CallAdd (task : Z)
| CallRemove (task : Z).

Definition run_call (c : call) (k : sched_t) : result sched_t :=
  match c with
  | CallAdd task => sched_add_task task k
  | CallRemove task => sched_remove_task task k
  end.

Fixpoint run_calls (cs : list call) (k : sched_t) : result sched_t :=
  match cs with
  | [] => Ok k
  | c :: cs' => do k' <- run_call c k; run_calls cs' k'
  end.

(** A call that clears level 0, whichever task it names: removal goes by
    the priority stored in the task. *)
Definition clears_level0 (k : sched_t) (c : call) : bool :=
  match c with
  | CallAdd _ => false
  | CallRemove task =>
      match tasks k !! task with
      | Some t => prio t =? IDLE_PRIO
      | None => false
      end
  end.

(** Every queued task sits at the level of its own priority. *)
Definition queue_consistent (k : sched_t) : Prop :=
  forall q t, holds k q t -> has_prio k t q.

(** The level a call acts on (the priority stored in the task it names)
    and the pointer it leaves there. *)
Definition call_level (k : sched_t) (c : call) : option Z :=
  match c with
  | CallAdd task => prio <$> tasks k !! task
  | CallRemove task => prio <$> tasks k !! task
  end.

Definition call_value (c : call) : Z :=
  match c with
  | CallAdd task => task
  | CallRemove _ => NULL
  end.

(** The content of cell [p] after the calls [cs], starting from [cur]:
    the last call at level [p] decides, calls at other levels do not
    count. *)
Fixpoint level_after (k : sched_t) (cs : list call) (p cur : Z) : Z :=
  match cs with
  | [] => cur
  | c :: cs' =>
      level_after k cs' p
        (match call_level k c with
         | Some q => if q =? p then call_value c else cur
         | None => cur
         end)
  end.

(** ** A small system used for concrete runs *)

Definition ex_idle : Z := 4096.
Definition ex_A : Z := 8192.
Definition ex_B : Z := 12288.
Definition ex_C : Z := 16384.

Definition ex_task (p : Z) (st : task_state_t) : task_t :=
  mk_task (mk_task_id 0 0) p st zero_thread.

Definition ex_tasks : gmap Z task_t :=
  <[ex_A := ex_task 5 READY]>
    (<[ex_B := ex_task 10 READY]> (<[ex_C := ex_task 5 READY]> ∅)).

(** Before [sched_init]. *)
Definition ex_boot : sched_t := sched_boot ex_idle ex_tasks.

(** After [sched_init]: the idle task alone. *)
Definition ex_init : sched_t :=
  mk_sched (<[ex_idle := idle_task]> ex_tasks)
           (<[0%nat := ex_idle]> (replicate 255 NULL)) ex_idle zero_thread.

(** After [sched_init], [sched_add_task(A)] (priority 5) and
    [sched_add_task(B)] (priority 10). *)
Definition ex_AB : sched_t :=
  with_run_queue ex_init
    (<[10%nat := ex_B]> (<[5%nat := ex_A]> (run_queue ex_init))).

(** ** Vocabulary for the statements about the stack image *)

(** An 8-byte cell at [a] lies inside the 64-bit address space. *)
Definition cell_ok (a : Z) : Prop := 0 <= a /\ a + 8 <= 2 ^ 64.

(** Two 8-byte cells do not overlap. *)
Definition apartb (a b : Z) : bool := (a + 8 <=? b) || (b + 8 <=? a).

Fixpoint pairwise_apartb (l : list Z) : bool :=
  match l with
  | [] => true
  | x :: l' => forallb (apartb x) l' && pairwise_apartb l'
  end.

(** A slot at offset [off] lies inside a frame of [len] bytes. *)
Definition in_frame (len off : Z) : bool := (0 <=? off) && (off + 8 <=? len).

Definition is_addr (a : Z) : bool := (0 <=? a) && (a <? 2 ^ 64).

Section StackImage.

Context {target : arch}.

(** A run of stores through the stack pointer, as (offset, value) pairs. *)
Definition pokes (stack : Z) (ws : list (Z * Z)) (m : mem) : mem :=
  fold_left (fun m' w => poke stack (fst w) (snd w) m') ws m.

(** The stores of the four parts of the image, in program order. *)
Definition kernel_frame : list (Z * Z) :=
  [(KERNEL_STACK_FRAME_MEPC, task_runtime); (KERNEL_STACK_FRAME_RA, 0)].

Definition caller_frame (task_entry : Z) : list (Z * Z) :=
  [(CALLER_STACK_FRAME_T0, 0); (CALLER_STACK_FRAME_T1, 0);
   (CALLER_STACK_FRAME_T2, 0); (CALLER_STACK_FRAME_T3, 0);
   (CALLER_STACK_FRAME_T4, 0); (CALLER_STACK_FRAME_T5, 0);
   (CALLER_STACK_FRAME_T6, 0); (CALLER_STACK_FRAME_A0, task_entry);
   (CALLER_STACK_FRAME_A1, 0); (CALLER_STACK_FRAME_A2, 0);
   (CALLER_STACK_FRAME_A3, 0); (CALLER_STACK_FRAME_A4, 0);
   (CALLER_STACK_FRAME_A5, 0); (CALLER_STACK_FRAME_A6, 0);
   (CALLER_STACK_FRAME_A7, 0)].

Definition ret_word : list (Z * Z) := [(DWORD_SIZE, _ret_from_interrupt)].

Definition callee_frame : list (Z * Z) :=
  [(CALLEE_STACK_FRAME_S0, 0); (CALLEE_STACK_FRAME_S1, 0);
   (CALLEE_STACK_FRAME_S2, 0); (CALLEE_STACK_FRAME_S3, 0);
   (CALLEE_STACK_FRAME_S4, 0); (CALLEE_STACK_FRAME_S5, 0);
   (CALLEE_STACK_FRAME_S6, 0); (CALLEE_STACK_FRAME_S7, 0);
   (CALLEE_STACK_FRAME_S8, 0); (CALLEE_STACK_FRAME_S9, 0);
   (CALLEE_STACK_FRAME_S10, 0); (CALLEE_STACK_FRAME_S11, 0)].

(** The scratch and argument register slots other than [a0], and the
    callee-saved register slots. *)
Definition caller_scratch_slots : list Z :=
  [CALLER_STACK_FRAME_T0; CALLER_STACK_FRAME_T1; CALLER_STACK_FRAME_T2;
   CALLER_STACK_FRAME_T3; CALLER_STACK_FRAME_T4; CALLER_STACK_FRAME_T5;
   CALLER_STACK_FRAME_T6; CALLER_STACK_FRAME_A1; CALLER_STACK_FRAME_A2;
   CALLER_STACK_FRAME_A3; CALLER_STACK_FRAME_A4; CALLER_STACK_FRAME_A5;
   CALLER_STACK_FRAME_A6; CALLER_STACK_FRAME_A7].

Definition callee_slots : list Z := map fst callee_frame.

(** Bytes the builder takes from the top of the block. *)
Definition frames_size : Z :=
  LWORD_SIZE + KERNEL_STACK_FRAME_LENGTH + CALLER_STACK_FRAME_LENGTH +
  LWORD_SIZE + CALLEE_STACK_FRAME_LENGTH.

(** What the builder needs of the constants: every slot lies inside its
    frame, the slots of a frame do not overlap, the offset of [thread.sp]
    is not negative, and the two code addresses are 64-bit values. *)
Definition layout_ok : bool :=
  forallb (in_frame KERNEL_STACK_FRAME_LENGTH) (map fst kernel_frame) &&
  forallb (in_frame CALLER_STACK_FRAME_LENGTH) (map fst (caller_frame 0)) &&
  forallb (in_frame LWORD_SIZE) (map fst ret_word) &&
  forallb (in_frame CALLEE_STACK_FRAME_LENGTH) (map fst callee_frame) &&
  pairwise_apartb (map fst kernel_frame) &&
  pairwise_apartb (map fst (caller_frame 0)) &&
  pairwise_apartb (map fst callee_frame) &&
  (0 <=? TASK_THREAD_SP) &&
  is_addr task_runtime && is_addr _ret_from_interrupt.

(** The block [stack, stack + stack_size) lies in the address space and
    the frames fit above the cell of [thread.sp]. *)
Definition room (stack stack_size : Z) : Prop :=
  0 <= stack /\ stack + stack_size <= 2 ^ 64 /\
  stack + TASK_THREAD_SP + 8 <= stack + stack_size - frames_size.

End StackImage.

(** A layout for the 64-bit RISC-V target, following the picture in the
    comment of [task_stack_init]: 8-byte slots in the order drawn there,
    the caller-saved frame padded to a multiple of 16 bytes, [thread] after
    the 16 bytes of identity, priority and state with [sp] its second
    member.  The two code addresses are arbitrary. *)
Definition rv64 : arch :=
  mk_arch 16 8
          16 0 8
          128 0 8 16 24 32 40 48 56 64 72 80 88 96 104 112
          96 0 8 16 24 32 40 48 56 64 72 80 88
          24 2147487744 2147491840.

(** A memory of zero bytes. *)
Definition zero_mem : mem := fun _ => 0.

(* ===================================================================== *)
(** * Part II: properties *)
(* ===================================================================== *)

(** ** Machine integers *)

Lemma wrap8_small z : 0 <= z < 256 -> wrap8 z = z.
Proof. intros H. unfold wrap8. apply Z.mod_small. lia. Qed.

Lemma wrap8_range z : 0 <= wrap8 z < 256.
Proof. unfold wrap8. apply Z.mod_pos_bound. lia. Qed.

Lemma wrap64_small z : 0 <= z < 2 ^ 64 -> wrap64 z = z.
Proof. intros H. unfold wrap64. apply Z.mod_small. lia. Qed.

Lemma wrap64_range z : 0 <= wrap64 z < 2 ^ 64.
Proof. unfold wrap64. apply Z.mod_pos_bound. lia. Qed.

(** ** The run queue as an array *)

Lemma rq_read_Ok rq i p :
  0 <= i < MAX_PRIO -> rq !! Z.to_nat i = Some p -> rq_read rq i = Ok p.
Proof.
  intros [H0 H1] Hl. unfold rq_read.
  apply Z.leb_le in H0. apply Z.ltb_lt in H1.
  rewrite H0, H1, Hl. reflexivity.
Qed.

Lemma rq_read_inv rq i p :
  rq_read rq i = Ok p -> 0 <= i < MAX_PRIO /\ rq !! Z.to_nat i = Some p.
Proof.
  unfold rq_read.
  destruct (0 <=? i) eqn:H0; destruct (i <? MAX_PRIO) eqn:H1; cbn; try discriminate.
  destruct (rq !! Z.to_nat i) eqn:Hl; try discriminate.
  intros [= ->]. apply Z.leb_le in H0. apply Z.ltb_lt in H1. auto.
Qed.

Lemma rq_read_out rq i : MAX_PRIO <= i -> rq_read rq i = Fault.
Proof.
  intros H. unfold rq_read.
  destruct (i <? MAX_PRIO) eqn:H1.
  - apply Z.ltb_lt in H1. lia.
  - rewrite andb_false_r. reflexivity.
Qed.

Lemma rq_write_Ok rq i p :
  0 <= i < MAX_PRIO -> length rq = Z.to_nat MAX_PRIO ->
  rq_write rq i p = Ok (<[Z.to_nat i := p]> rq).
Proof.
  intros [H0 H1] Hlen. unfold rq_write.
  apply Z.leb_le in H0. rewrite H0.
  assert (H2 : (i <? Z.of_nat (length rq)) = true).
  { apply Z.ltb_lt. rewrite Hlen. unfold MAX_PRIO in *. lia. }
  apply Z.ltb_lt in H1. rewrite H1, H2. reflexivity.
Qed.

Lemma rq_write_inv rq i p rq' :
  rq_write rq i p = Ok rq' ->
  0 <= i < MAX_PRIO /\ (Z.to_nat i < length rq)%nat /\ rq' = <[Z.to_nat i := p]> rq.
Proof.
  unfold rq_write.
  destruct (0 <=? i) eqn:H0; destruct (i <? MAX_PRIO) eqn:H1;
    destruct (i <? Z.of_nat (length rq)) eqn:H2; cbn; try discriminate.
  intros [= <-]. apply Z.leb_le in H0. apply Z.ltb_lt in H1. apply Z.ltb_lt in H2.
  repeat split; auto. lia.
Qed.

Lemma deref_inv k task t :
  deref k task = Ok t -> task <> NULL /\ tasks k !! task = Some t.
Proof.
  unfold deref. destruct (task =? NULL) eqn:E; try discriminate.
  apply Z.eqb_neq in E. destruct (tasks k !! task); try discriminate.
  intros [= ->]. auto.
Qed.

Lemma deref_Ok k task t :
  task <> NULL -> tasks k !! task = Some t -> deref k task = Ok t.
Proof.
  intros Hn Hl. unfold deref. apply Z.eqb_neq in Hn. rewrite Hn, Hl. reflexivity.
Qed.

(** ** The scan of [sched_get_next_task] *)

(** The guard [prio_idx >= 0] holds for every value of a [uint8_t]. *)
Lemma scan_guard_always z : (0 <=? wrap8 z) = true.
Proof. apply Z.leb_le. apply wrap8_range. Qed.

(** From index [i] the scan stops at the first occupied cell [p] below it,
    after [i - p + 1] iterations. *)
Lemma scan_found fuel : forall rq i p t,
  0 <= p <= i -> i < MAX_PRIO ->
  rq !! Z.to_nat p = Some t -> t <> NULL ->
  (forall q, p < q <= i -> rq !! Z.to_nat q = Some NULL) ->
  (Z.to_nat (i - p) < fuel)%nat ->
  scan fuel rq i = Ok p.
Proof.
  induction fuel as [|fuel IH]; intros rq i p t Hpi Hi Hp Ht Habove Hfuel.
  - lia.
  - cbn [scan].
    assert (Hge : (0 <=? i) = true) by (apply Z.leb_le; lia). rewrite Hge.
    destruct (Z.eq_dec i p) as [->|Hne].
    + rewrite (rq_read_Ok rq p t) by (auto; lia). cbn [bind].
      apply Z.eqb_neq in Ht. rewrite Ht. reflexivity.
    + rewrite (rq_read_Ok rq i NULL) by (try apply Habove; lia). cbn [bind].
      rewrite Z.eqb_refl. cbn [negb].
      unfold MAX_PRIO in *. rewrite wrap8_small by lia.
      apply (IH rq (i - 1) p t); auto; try lia.
      intros q Hq. apply Habove. lia.
Qed.

(** When no cell from [i] down to 0 is occupied, the index wraps to 255 and
    the scan reads outside the array. *)
Lemma scan_all_empty fuel : forall rq i,
  0 <= i < MAX_PRIO ->
  (forall q, 0 <= q <= i -> rq !! Z.to_nat q = Some NULL) ->
  (Z.to_nat i + 1 < fuel)%nat ->
  scan fuel rq i = Fault.
Proof.
  induction fuel as [|fuel IH]; intros rq i Hi Hempty Hfuel.
  - lia.
  - cbn [scan].
    assert (Hge : (0 <=? i) = true) by (apply Z.leb_le; lia). rewrite Hge.
    rewrite (rq_read_Ok rq i NULL) by (try apply Hempty; lia). cbn [bind].
    rewrite Z.eqb_refl. cbn [negb].
    destruct (Z.eq_dec i 0) as [->|Hne].
    + change (wrap8 (0 - 1)) with 255.
      destruct fuel as [|fuel]; [lia|]. cbn [scan].
      change (0 <=? 255) with true. cbv iota.
      rewrite rq_read_out by (unfold MAX_PRIO; lia). reflexivity.
    + unfold MAX_PRIO in *. rewrite wrap8_small by lia.
      apply IH; try lia. intros q Hq. apply Hempty. lia.
Qed.

(** Up to any index of the queue, either there is a highest occupied cell
    or every cell is empty. *)
Lemma highest_or_empty (rq : list Z) :
  forall n : nat, (n < length rq)%nat ->
  (exists p t, (p <= n)%nat /\ rq !! p = Some t /\ t <> NULL /\
               forall q, (p < q <= n)%nat -> rq !! q = Some NULL) \/
  (forall q, (q <= n)%nat -> rq !! q = Some NULL).
Proof.
  induction n as [|n IH]; intros Hn.
  - destruct (lookup_lt_is_Some_2 rq 0%nat Hn) as [x Hx].
    destruct (Z.eq_dec x NULL) as [->|Hne].
    + right. intros q Hq. replace q with 0%nat by lia. exact Hx.
    + left. exists 0%nat, x. repeat split; auto. intros q Hq. lia.
  - destruct (lookup_lt_is_Some_2 rq (S n) Hn) as [x Hx].
    destruct (Z.eq_dec x NULL) as [->|Hne].
    + destruct IH as [(p & t & Hp & Hl & Ht & Hab)|Hall]; [lia| |].
      * left. exists p, t. repeat split; auto.
        intros q Hq. destruct (Nat.eq_dec q (S n)) as [->|Hq']; auto.
        apply Hab. lia.
      * right. intros q Hq. destruct (Nat.eq_dec q (S n)) as [->|Hq']; auto.
        apply Hall. lia.
    + left. exists (S n), x. repeat split; auto. intros q Hq. lia.
Qed.

(** What a successful scan from an index inside the array has found. *)
Lemma scan_inv fuel : forall rq i p,
  0 <= i < MAX_PRIO -> scan fuel rq i = Ok p ->
  0 <= p <= i /\
  exists t, rq !! Z.to_nat p = Some t /\ t <> NULL /\
            forall q, p < q <= i -> rq !! Z.to_nat q = Some NULL.
Proof.
  induction fuel as [|fuel IH]; intros rq i p Hi Hs.
  - discriminate.
  - cbn [scan] in Hs.
    assert (Hge : (0 <=? i) = true) by (apply Z.leb_le; lia). rewrite Hge in Hs.
    destruct (rq_read rq i) as [slot| |] eqn:Hr; cbn [bind] in Hs; try discriminate.
    apply rq_read_inv in Hr as [_ Hl].
    destruct (slot =? NULL) eqn:E; cbn [negb] in Hs.
    + apply Z.eqb_eq in E. subst slot.
      destruct (Z.eq_dec i 0) as [->|Hne].
      * change (wrap8 (0 - 1)) with 255 in Hs.
        destruct fuel as [|fuel]; [discriminate|]. cbn [scan] in Hs.
        change (0 <=? 255) with true in Hs. cbv iota in Hs.
        rewrite rq_read_out in Hs by (unfold MAX_PRIO; lia). discriminate.
      * unfold MAX_PRIO in *. rewrite wrap8_small in Hs by lia.
        apply IH in Hs as (Hp & t & Hlt & Ht & Hab); [|lia].
        split; [lia|]. exists t. repeat split; auto.
        intros q Hq. destruct (Z.eq_dec q i) as [->|Hqi]; auto.
        apply Hab. lia.
    + injection Hs as <-. apply Z.eqb_neq in E.
      split; [lia|]. exists slot. repeat split; auto. intros q Hq. lia.
Qed.

(** [sched_get_next_task] returns the task of the highest occupied level. *)
Lemma get_next_highest k p t :
  holds k p t ->
  (forall q, p < q < MAX_PRIO -> empty_level k q) ->
  scan (Z.to_nat (MAX_PRIO - p)) (run_queue k) (MAX_PRIO - 1) = Ok p /\
  sched_get_next_task k = Ok t.
Proof.
  intros [[Hp Hl] Ht] Hab.
  assert (Hscan : forall fuel, (Z.to_nat (MAX_PRIO - 1 - p) < fuel)%nat ->
                    scan fuel (run_queue k) (MAX_PRIO - 1) = Ok p).
  { intros fuel Hf. apply (scan_found fuel _ _ p t); auto; try lia.
    intros q Hq. apply Hab. lia. }
  split.
  - apply Hscan. unfold MAX_PRIO in *. lia.
  - unfold sched_get_next_task.
    change (wrap8 (MAX_PRIO - 1)) with (MAX_PRIO - 1).
    rewrite Hscan by (unfold scan_fuel, MAX_PRIO in *; lia). cbn [bind].
    apply rq_read_Ok; auto.
Qed.

(** The result of [sched_get_next_task], when there is one, is the content
    of an occupied cell with nothing above it. *)
Lemma get_next_inv k r :
  sched_get_next_task k = Ok r ->
  exists p, holds k p r /\ forall q, p < q < MAX_PRIO -> empty_level k q.
Proof.
  unfold sched_get_next_task. change (wrap8 (MAX_PRIO - 1)) with (MAX_PRIO - 1).
  destruct (scan scan_fuel (run_queue k) (MAX_PRIO - 1)) as [p| |] eqn:Hs;
    cbn [bind]; try discriminate.
  intros Hr. apply scan_inv in Hs as (Hp & t & Hl & Ht & Hab);
    [|unfold MAX_PRIO; lia].
  apply rq_read_inv in Hr as [Hrange Hl']. rewrite Hl in Hl'. injection Hl' as ->.
  exists p. repeat split; auto; try lia.
  apply Hab. lia.
Qed.

(** The scan never exhausts its fuel on a queue of [MAX_PRIO] cells: it
    finds a task or leaves the array. *)
Lemma get_next_total k :
  queue_wf k ->
  (exists p t, holds k p t /\ sched_get_next_task k = Ok t) \/
  ((forall q, 0 <= q < MAX_PRIO -> empty_level k q) /\
   sched_get_next_task k = Fault).
Proof.
  intros Hwf. unfold queue_wf in Hwf.
  destruct (highest_or_empty (run_queue k) 254) as [(p & t & Hp & Hl & Ht & Hab)|Hall].
  - rewrite Hwf. unfold MAX_PRIO. lia.
  - left. exists (Z.of_nat p), t.
    assert (Hh : holds k (Z.of_nat p) t).
    { repeat split; auto; try (unfold MAX_PRIO; lia). rewrite Nat2Z.id. exact Hl. }
    split; [exact Hh|]. apply (get_next_highest k (Z.of_nat p) t); auto.
    intros q Hq. split; [unfold MAX_PRIO in *; lia|].
    apply Hab. unfold MAX_PRIO in *. lia.
  - right. split.
    + intros q Hq. split; auto. apply Hall. unfold MAX_PRIO in *. lia.
    + unfold sched_get_next_task. change (wrap8 (MAX_PRIO - 1)) with 254.
      rewrite scan_all_empty;
        [reflexivity | unfold MAX_PRIO; lia
        | intros q Hq; apply Hall; lia | unfold scan_fuel; lia].
Qed.

(** ** [sched_add_task] and [sched_remove_task] *)

Lemma insert_slot_same (rq : list Z) p x :
  (Z.to_nat p < length rq)%nat -> <[Z.to_nat p := x]> rq !! Z.to_nat p = Some x.
Proof. intros H. apply list_lookup_insert_eq. exact H. Qed.

Lemma insert_slot_other (rq : list Z) p q x :
  0 <= p -> 0 <= q -> q <> p ->
  <[Z.to_nat p := x]> rq !! Z.to_nat q = rq !! Z.to_nat q.
Proof. intros Hp Hq Hne. apply list_lookup_insert_ne. lia. Qed.

Lemma sched_add_task_Ok k task t :
  queue_wf k -> task <> NULL -> tasks k !! task = Some t ->
  0 <= prio t < MAX_PRIO ->
  sched_add_task task k =
  Ok (with_run_queue k (<[Z.to_nat (prio t) := task]> (run_queue k))).
Proof.
  intros Hwf Hn Hl Hp. unfold sched_add_task.
  rewrite (deref_Ok k task t) by auto. cbn [bind].
  rewrite rq_write_Ok by auto. reflexivity.
Qed.

Lemma sched_add_task_inv k task k' :
  sched_add_task task k = Ok k' ->
  exists t, task <> NULL /\ tasks k !! task = Some t /\
            0 <= prio t < MAX_PRIO /\
            (Z.to_nat (prio t) < length (run_queue k))%nat /\
            k' = with_run_queue k (<[Z.to_nat (prio t) := task]> (run_queue k)).
Proof.
  unfold sched_add_task.
  destruct (deref k task) as [t| |] eqn:Hd; cbn [bind]; try discriminate.
  destruct (rq_write (run_queue k) (prio t) task) as [rq| |] eqn:Hw;
    cbn [bind]; try discriminate.
  intros [= <-]. apply deref_inv in Hd as [Hn Hl].
  apply rq_write_inv in Hw as (Hp & Hlen & ->).
  exists t. repeat split; auto; lia.
Qed.

Lemma sched_remove_task_Ok k task t :
  queue_wf k -> task <> NULL -> tasks k !! task = Some t ->
  0 <= prio t < MAX_PRIO ->
  sched_remove_task task k =
  Ok (with_run_queue k (<[Z.to_nat (prio t) := NULL]> (run_queue k))).
Proof.
  intros Hwf Hn Hl Hp. unfold sched_remove_task.
  rewrite (deref_Ok k task t) by auto. cbn [bind].
  rewrite rq_write_Ok by auto. reflexivity.
Qed.

Lemma sched_remove_task_inv k task k' :
  sched_remove_task task k = Ok k' ->
  exists t, task <> NULL /\ tasks k !! task = Some t /\
            0 <= prio t < MAX_PRIO /\
            (Z.to_nat (prio t) < length (run_queue k))%nat /\
            k' = with_run_queue k (<[Z.to_nat (prio t) := NULL]> (run_queue k)).
Proof.
  unfold sched_remove_task.
  destruct (deref k task) as [t| |] eqn:Hd; cbn [bind]; try discriminate.
  destruct (rq_write (run_queue k) (prio t) NULL) as [rq| |] eqn:Hw;
    cbn [bind]; try discriminate.
  intros [= <-]. apply deref_inv in Hd as [Hn Hl].
  apply rq_write_inv in Hw as (Hp & Hlen & ->).
  exists t. repeat split; auto; lia.
Qed.

Lemma has_prio_fun k t p q : has_prio k t p -> has_prio k t q -> p = q.
Proof.
  intros (tk & Hl & Hp) (tk' & Hl' & Hq). rewrite Hl in Hl'.
  injection Hl' as <-. congruence.
Qed.

(** A call that does not clear level 0 keeps it occupied. *)
Lemma run_call_keeps_level0 c k k' :
  queue_wf k -> (exists t0, holds k 0 t0) ->
  clears_level0 k c = false -> run_call c k = Ok k' ->
  queue_wf k' /\ (exists t0, holds k' 0 t0) /\ tasks k' = tasks k.
Proof.
  intros Hwf (t0 & [[H0 Hl0] Ht0]) Hc Hrun.
  destruct c as [task|task]; cbn [run_call clears_level0] in *.
  - apply sched_add_task_inv in Hrun as (t & Hn & Hl & Hp & Hlen & ->).
    cbn [with_run_queue]. unfold queue_wf, holds, slot_is. cbn.
    rewrite length_insert. repeat split; auto.
    destruct (Z.eq_dec (prio t) 0) as [E|E].
    + exists task. rewrite E in *. repeat split; auto; try lia.
      apply (insert_slot_same _ 0). exact Hlen.
    + exists t0. repeat split; auto; try lia.
      rewrite (insert_slot_other _ (prio t) 0) by lia. exact Hl0.
  - apply sched_remove_task_inv in Hrun as (t & Hn & Hl & Hp & Hlen & ->).
    rewrite Hl in Hc. apply Z.eqb_neq in Hc. unfold IDLE_PRIO in Hc.
    cbn [with_run_queue]. unfold queue_wf, holds, slot_is. cbn.
    rewrite length_insert. repeat split; auto.
    exists t0. repeat split; auto; try lia.
    rewrite (insert_slot_other _ (prio t) 0) by lia. exact Hl0.
Qed.

Lemma clears_level0_tasks k k' c :
  tasks k' = tasks k -> clears_level0 k' c = clears_level0 k c.
Proof. intros E. destruct c; cbn; [reflexivity|]. rewrite E. reflexivity. Qed.

Lemma run_calls_keep_level0 k0 cs : forall k k',
  tasks k = tasks k0 ->
  queue_wf k -> (exists t0, holds k 0 t0) ->
  forallb (fun c => negb (clears_level0 k0 c)) cs = true ->
  run_calls cs k = Ok k' ->
  queue_wf k' /\ (exists t0, holds k' 0 t0).
Proof.
  induction cs as [|c cs IH]; intros k k' Hts Hwf H0 Hcs Hrun.
  - injection Hrun as <-. auto.
  - cbn [run_calls] in Hrun. cbn [forallb] in Hcs.
    apply andb_true_iff in Hcs as [Hc Hcs]. apply negb_true_iff in Hc.
    rewrite <- (clears_level0_tasks k0 k c Hts) in Hc.
    destruct (run_call c k) as [k1| |] eqn:Hstep; cbn [bind] in Hrun;
      try discriminate.
    destruct (run_call_keeps_level0 c k k1 Hwf H0 Hc Hstep) as (Hwf1 & H01 & Ht).
    apply (IH k1 k'); auto. congruence.
Qed.

(** With level 0 occupied the scan stops inside the array. *)
Lemma get_next_with_level0 k :
  queue_wf k -> (exists t0, holds k 0 t0) ->
  exists p t, holds k p t /\
              scan (Z.to_nat MAX_PRIO) (run_queue k) (MAX_PRIO - 1) = Ok p /\
              sched_get_next_task k = Ok t.
Proof.
  intros Hwf (t0 & [[H0 Hl0] Ht0]). unfold queue_wf in Hwf.
  destruct (highest_or_empty (run_queue k) 254) as [(p & t & Hp & Hl & Ht & Hab)|Hall].
  - rewrite Hwf. unfold MAX_PRIO. lia.
  - exists (Z.of_nat p), t.
    assert (Hh : holds k (Z.of_nat p) t).
    { repeat split; auto; try (unfold MAX_PRIO; lia). rewrite Nat2Z.id. exact Hl. }
    assert (Hab' : forall q, Z.of_nat p < q < MAX_PRIO -> empty_level k q).
    { intros q Hq. split; [unfold MAX_PRIO in *; lia|].
      apply Hab. unfold MAX_PRIO in *. lia. }
    destruct (get_next_highest k (Z.of_nat p) t Hh Hab') as [Hs Hg].
    repeat split; auto; try (unfold MAX_PRIO; lia).
    + rewrite Nat2Z.id. exact Hl.
    + apply (scan_found _ _ _ (Z.of_nat p) t); auto; try (unfold MAX_PRIO; lia).
      * rewrite Nat2Z.id. exact Hl.
      * intros q Hq. apply Hab'. unfold MAX_PRIO in *. lia.
  - exfalso. change (Z.to_nat 0) with 0%nat in Hl0.
    rewrite (Hall 0%nat) in Hl0 by lia. injection Hl0 as <-.
    apply Ht0. reflexivity.
Qed.

(** ** The concrete system *)

(** Before [sched_init] every cell is empty: the index wraps from 0 to 255
    and the scan reads outside the array. *)
Lemma ex_boot_scan_leaves_array : sched_get_next_task ex_boot = Fault.
Proof. vm_compute. reflexivity. Qed.

Lemma ex_init_reached : sched_init ex_idle ex_boot = Ok ex_init.
Proof. vm_compute. reflexivity. Qed.

Lemma ex_AB_reached :
  (do k <- sched_init ex_idle ex_boot;
   do k <- sched_add_task ex_A k;
   sched_add_task ex_B k) = Ok ex_AB.
Proof. vm_compute. reflexivity. Qed.

(** ** Claims about the run queue *)

(** C1, as stated, fails: after [sched_init], [add(A, prio 5)] and
    [add(B, prio 10)], levels 0 < 5 both hold a ready task, and
    [sched_get_next_task] returns B from level 10, not the task A stored at
    the higher of the two levels. *)
Lemma C1_counterexample :
  queue_wf ex_AB /\ 0 < 5 /\
  holds ex_AB 0 ex_idle /\ in_state ex_AB ex_idle READY /\
  holds ex_AB 5 ex_A /\ in_state ex_AB ex_A READY /\
  sched_get_next_task ex_AB <> Ok ex_A.
Proof.
  split; [reflexivity|]. split; [lia|].
  split; [repeat split; try (unfold MAX_PRIO; lia); discriminate|].
  split; [eexists; split; [vm_compute; reflexivity|reflexivity]|].
  split; [repeat split; try (unfold MAX_PRIO; lia); discriminate|].
  split; [eexists; split; [vm_compute; reflexivity|reflexivity]|].
  intros H. vm_compute in H. discriminate H.
Qed.

(** C1, amended: when levels [p1 < p2] both hold a task and no level above
    [p2] holds one, the scan from the top stops at [p2] and
    [sched_get_next_task] returns the task stored there (the states of the
    tasks play no part). *)
Theorem C1_get_next_returns_highest k p1 p2 t1 t2 :
  p1 < p2 -> holds k p1 t1 -> holds k p2 t2 ->
  (forall q, p2 < q < MAX_PRIO -> empty_level k q) ->
  scan (Z.to_nat (MAX_PRIO - p2)) (run_queue k) (MAX_PRIO - 1) = Ok p2 /\
  sched_get_next_task k = Ok t2.
Proof.
  intros _ _ H2 Hab. apply get_next_highest; assumption.
Qed.

Lemma ex_AB_above_10 q : 10 < q < MAX_PRIO -> empty_level ex_AB q.
Proof.
  intros Hq. split; [lia|].
  unfold ex_AB, ex_init. cbn [run_queue with_run_queue].
  rewrite !list_lookup_insert_ne by lia.
  apply lookup_replicate_2. unfold MAX_PRIO in Hq. lia.
Qed.

Lemma C1_witness :
  scan (Z.to_nat (MAX_PRIO - 10)) (run_queue ex_AB) (MAX_PRIO - 1) = Ok 10 /\
  sched_get_next_task ex_AB = Ok ex_B.
Proof.
  apply (C1_get_next_returns_highest ex_AB 5 10 ex_A ex_B).
  - lia.
  - repeat split; try (unfold MAX_PRIO; lia); discriminate.
  - repeat split; try (unfold MAX_PRIO; lia); discriminate.
  - exact ex_AB_above_10.
Defined.

(** C2: starting from a queue of [MAX_PRIO] cells whose level 0 is
    occupied, after any sequence of [sched_add_task] and
    [sched_remove_task] calls that runs without fault and never clears
    level 0, [sched_get_next_task] returns a non-null task.  The scan finds
    it within [MAX_PRIO] iterations, that is, before the index could pass
    below 0; the loop guard itself holds for every value of the index and
    never ends the loop. *)
Theorem C2_get_next_never_fails k cs k' :
  queue_wf k -> (exists t0, holds k 0 t0) ->
  forallb (fun c => negb (clears_level0 k c)) cs = true ->
  run_calls cs k = Ok k' ->
  (exists p t,
     sched_get_next_task k' = Ok t /\ t <> NULL /\ holds k' p t /\
     scan (Z.to_nat MAX_PRIO) (run_queue k') (MAX_PRIO - 1) = Ok p) /\
  (forall z, (0 <=? wrap8 z) = true).
Proof.
  intros Hwf H0 Hcs Hrun. split; [|exact scan_guard_always].
  destruct (run_calls_keep_level0 k cs k k' eq_refl Hwf H0 Hcs Hrun) as [Hwf' H0'].
  destruct (get_next_with_level0 k' Hwf' H0') as (p & t & Hh & Hs & Hg).
  exists p, t. repeat split; auto; apply Hh.
Qed.

Lemma C2_witness :
  exists k',
    run_calls [CallAdd ex_A; CallAdd ex_B; CallRemove ex_B] ex_init = Ok k' /\
    (exists p t,
       sched_get_next_task k' = Ok t /\ t <> NULL /\ holds k' p t /\
       scan (Z.to_nat MAX_PRIO) (run_queue k') (MAX_PRIO - 1) = Ok p) /\
    (forall z, (0 <=? wrap8 z) = true).
Proof.
  eexists. split; [vm_compute; reflexivity|].
  eapply (C2_get_next_never_fails ex_init
            [CallAdd ex_A; CallAdd ex_B; CallRemove ex_B]).
  - reflexivity.
  - exists ex_idle. repeat split; try (unfold MAX_PRIO; lia); discriminate.
  - vm_compute. reflexivity.
  - vm_compute. reflexivity.
Defined.

(** C7: [sched_add_task] stores the task in the cell of its priority,
    whatever the cell held.  After [add(A)] and [add(B)] at the same
    priority [p], cell [p] holds B and the other cells are as before; so A,
    unless it is B or sat in another cell already, is in no cell of the
    queue. *)
Theorem C7_add_overwrites k A B p :
  queue_wf k -> A <> NULL -> B <> NULL ->
  has_prio k A p -> has_prio k B p -> 0 <= p < MAX_PRIO ->
  exists k1 k2,
    sched_add_task A k = Ok k1 /\ sched_add_task B k1 = Ok k2 /\
    slot_is k1 p A /\ slot_is k2 p B /\
    (forall q, 0 <= q -> q <> p ->
       run_queue k2 !! Z.to_nat q = run_queue k !! Z.to_nat q) /\
    (A <> B -> (forall q, q <> p -> ~ slot_is k q A) ->
       forall q, ~ slot_is k2 q A).
Proof.
  intros Hwf HA HB (tA & HlA & HpA) (tB & HlB & HpB) Hp.
  assert (Hlen : (Z.to_nat p < length (run_queue k))%nat).
  { rewrite Hwf. unfold MAX_PRIO in *. lia. }
  eexists. eexists. split.
  { apply (sched_add_task_Ok k A tA); auto. rewrite HpA. exact Hp. }
  split.
  { apply (sched_add_task_Ok _ B tB); auto.
    - unfold queue_wf. cbn. rewrite length_insert. exact Hwf.
    - rewrite HpB. exact Hp. }
  rewrite HpA, HpB. unfold slot_is. cbn.
  split; [split; [exact Hp|apply insert_slot_same; exact Hlen]|].
  split; [split; [exact Hp|apply insert_slot_same; rewrite length_insert; exact Hlen]|].
  split.
  - intros q Hq Hne. rewrite !insert_slot_other by lia. reflexivity.
  - intros Hne Hnot q [Hq Hl].
    destruct (Z.eq_dec q p) as [->|Hqp].
    + rewrite insert_slot_same in Hl by (rewrite length_insert; exact Hlen).
      congruence.
    + rewrite !insert_slot_other in Hl by lia.
      apply (Hnot q Hqp). split; assumption.
Qed.

Lemma C7_witness :
  exists k1 k2,
    sched_add_task ex_A ex_init = Ok k1 /\ sched_add_task ex_C k1 = Ok k2 /\
    slot_is k1 5 ex_A /\ slot_is k2 5 ex_C /\
    (forall q, 0 <= q -> q <> 5 ->
       run_queue k2 !! Z.to_nat q = run_queue ex_init !! Z.to_nat q) /\
    (ex_A <> ex_C -> (forall q, q <> 5 -> ~ slot_is ex_init q ex_A) ->
       forall q, ~ slot_is k2 q ex_A).
Proof.
  apply (C7_add_overwrites ex_init ex_A ex_C 5).
  - reflexivity.
  - discriminate.
  - discriminate.
  - eexists; split; [vm_compute; reflexivity|reflexivity].
  - eexists; split; [vm_compute; reflexivity|reflexivity].
  - unfold MAX_PRIO; lia.
Defined.

Lemma remove_keeps_consistent k task t :
  tasks k !! task = Some t -> 0 <= prio t ->
  queue_consistent k ->
  queue_consistent
    (with_run_queue k (<[Z.to_nat (prio t) := NULL]> (run_queue k))).
Proof.
  intros Hl Hp Hc q x [[Hq Hx] Hn]. cbn in Hx.
  destruct (Z.eq_dec q (prio t)) as [->|Hne].
  - destruct (le_lt_dec (length (run_queue k)) (Z.to_nat (prio t))) as [Hlen|Hlen].
    + rewrite list_insert_ge in Hx by lia.
      apply (Hc (prio t) x). split; [split|]; assumption.
    + rewrite insert_slot_same in Hx by lia. congruence.
  - rewrite insert_slot_other in Hx by lia.
    apply (Hc q x). split; [split|]; assumption.
Qed.

(** C8: [sched_remove_task] empties the cell of the task's priority,
    whatever the cell held, and touches no other cell.  While that cell is
    empty, whatever [sched_get_next_task] returns comes from another level;
    in a queue where every task sits at the level of its own priority it is
    therefore never the removed task. *)
Theorem C8_remove_by_priority k task p :
  queue_wf k -> task <> NULL -> has_prio k task p -> 0 <= p < MAX_PRIO ->
  exists k1,
    sched_remove_task task k = Ok k1 /\ empty_level k1 p /\
    (forall q, 0 <= q -> q <> p ->
       run_queue k1 !! Z.to_nat q = run_queue k !! Z.to_nat q) /\
    tasks k1 = tasks k /\
    (queue_consistent k -> queue_consistent k1) /\
    (forall k2 r, empty_level k2 p -> sched_get_next_task k2 = Ok r ->
       exists q, q <> p /\ holds k2 q r) /\
    (forall k2, queue_consistent k2 -> has_prio k2 task p ->
       empty_level k2 p -> sched_get_next_task k2 <> Ok task).
Proof.
  intros Hwf Hn (t & Hl & Hpt) Hp.
  assert (Hlen : (Z.to_nat p < length (run_queue k))%nat).
  { rewrite Hwf. unfold MAX_PRIO in *. lia. }
  assert (Hfrom : forall k2 r, empty_level k2 p ->
            sched_get_next_task k2 = Ok r -> exists q, q <> p /\ holds k2 q r).
  { intros k2 r [_ He] Hg. apply get_next_inv in Hg as (q & Hh & _).
    exists q. split; [|exact Hh]. intros ->.
    destruct Hh as [[_ Hq] Hr]. congruence. }
  eexists. split.
  { apply (sched_remove_task_Ok k task t); auto. rewrite Hpt. exact Hp. }
  rewrite Hpt. unfold empty_level, slot_is. cbn.
  split; [split; [exact Hp|apply insert_slot_same; exact Hlen]|].
  split; [intros q Hq Hne; apply insert_slot_other; lia|].
  split; [reflexivity|].
  split.
  { intros Hc. rewrite <- Hpt. apply (remove_keeps_consistent k task t); auto.
    lia. }
  split; [exact Hfrom|].
  intros k2 Hc Hprio He Hg.
  destruct (Hfrom k2 task He Hg) as (q & Hqp & Hh).
  apply Hqp. apply (has_prio_fun k2 task); auto.
Qed.

(** In the concrete system A and C both have priority 5: removing C empties
    level 5 although the cell holds A. *)
Lemma C8_witness :
  holds ex_AB 5 ex_A /\
  exists k1,
    sched_remove_task ex_C ex_AB = Ok k1 /\ empty_level k1 5 /\
    (forall q, 0 <= q -> q <> 5 ->
       run_queue k1 !! Z.to_nat q = run_queue ex_AB !! Z.to_nat q) /\
    tasks k1 = tasks ex_AB /\
    (queue_consistent ex_AB -> queue_consistent k1) /\
    (forall k2 r, empty_level k2 5 -> sched_get_next_task k2 = Ok r ->
       exists q, q <> 5 /\ holds k2 q r) /\
    (forall k2, queue_consistent k2 -> has_prio k2 ex_C 5 ->
       empty_level k2 5 -> sched_get_next_task k2 <> Ok ex_C).
Proof.
  split.
  - repeat split; try (unfold MAX_PRIO; lia); discriminate.
  - apply (C8_remove_by_priority ex_AB ex_C 5).
    + reflexivity.
    + discriminate.
    + eexists; split; [vm_compute; reflexivity|reflexivity].
    + unfold MAX_PRIO; lia.
Defined.

(** C9: [sched_init] makes the idle task the current task and stores it in
    cell 0 (the priority of its initialiser), leaving every other cell and
    every task as they were, whatever the queue held before; and on the
    scheduler's initial memory [sched_get_next_task] then returns the idle
    task. *)
Theorem C9_sched_init idle :
  idle <> NULL ->
  (forall k, queue_wf k -> has_prio k idle IDLE_PRIO ->
     exists k1,
       sched_init idle k = Ok k1 /\
       current_task k1 = idle /\ slot_is k1 0 idle /\
       (forall q, 0 < q ->
          run_queue k1 !! Z.to_nat q = run_queue k !! Z.to_nat q) /\
       tasks k1 = tasks k) /\
  (forall ts,
     exists k1,
       sched_init idle (sched_boot idle ts) = Ok k1 /\
       sched_get_next_task k1 = Ok idle).
Proof.
  intros Hn.
  assert (Hgen : forall k, queue_wf k -> has_prio k idle IDLE_PRIO ->
     exists k1,
       sched_init idle k = Ok k1 /\
       current_task k1 = idle /\ slot_is k1 0 idle /\
       (forall q, 0 < q ->
          run_queue k1 !! Z.to_nat q = run_queue k !! Z.to_nat q) /\
       tasks k1 = tasks k).
  { intros k Hwf (t & Hl & Hp). unfold sched_init.
    eexists. split.
    { apply (sched_add_task_Ok _ idle t); auto.
      rewrite Hp. unfold IDLE_PRIO, MAX_PRIO. lia. }
    rewrite Hp. unfold slot_is, IDLE_PRIO. cbn.
    split; [reflexivity|].
    split.
    - split; [unfold MAX_PRIO; lia|].
      apply (insert_slot_same _ 0). rewrite Hwf. unfold MAX_PRIO. lia.
    - split; [|reflexivity].
      intros q Hq. apply (insert_slot_other _ 0 q); lia. }
  split; [exact Hgen|].
  intros ts.
  assert (Hwf : queue_wf (sched_boot idle ts)).
  { unfold queue_wf, sched_boot. cbn. apply length_replicate. }
  assert (Hp : has_prio (sched_boot idle ts) idle IDLE_PRIO).
  { exists idle_task. split; [|reflexivity].
    unfold sched_boot. cbn. apply lookup_insert_eq. }
  destruct (Hgen _ Hwf Hp) as (k1 & Hi & Hc & H0 & Hoth & Hts).
  exists k1. split; [exact Hi|].
  apply (get_next_highest k1 0 idle).
  - split; assumption.
  - intros q Hq. split; [lia|].
    rewrite Hoth by lia. unfold sched_boot. cbn.
    apply lookup_replicate_2. unfold MAX_PRIO in *. lia.
Qed.

Lemma C9_witness :
  (forall k, queue_wf k -> has_prio k ex_idle IDLE_PRIO ->
     exists k1,
       sched_init ex_idle k = Ok k1 /\
       current_task k1 = ex_idle /\ slot_is k1 0 ex_idle /\
       (forall q, 0 < q ->
          run_queue k1 !! Z.to_nat q = run_queue k !! Z.to_nat q) /\
       tasks k1 = tasks k) /\
  (forall ts,
     exists k1,
       sched_init ex_idle (sched_boot ex_idle ts) = Ok k1 /\
       sched_get_next_task k1 = Ok ex_idle).
Proof.
  apply (C9_sched_init ex_idle). discriminate.
Defined.

(** ** The scheduling step *)

Lemma in_state_fun k t st st' : in_state k t st -> in_state k t st' -> st = st'.
Proof.
  intros (tk & Hl & Hs) (tk' & Hl' & Hs'). rewrite Hl in Hl'.
  injection Hl' as <-. congruence.
Qed.

(** C4, as stated, fails: right after [sched_init] the current task is the
    idle task, in state [READY], and it is also the task
    [sched_get_next_task] selects; [sched_run] marks it [RUNNING], so the
    state of the previously current task is not what it was before the
    call. *)
Lemma C4_counterexample :
  exists k',
    sched_run ex_init = Ok k' /\
    sched_get_current_task ex_init = ex_idle /\
    in_state ex_init ex_idle READY /\
    in_state k' ex_idle RUNNING /\
    ~ in_state k' ex_idle READY.
Proof.
  eexists. split; [vm_compute; reflexivity|].
  split; [reflexivity|].
  split; [eexists; split; [vm_compute; reflexivity|reflexivity]|].
  split.
  - eexists; split; [vm_compute; reflexivity|reflexivity].
  - intros H.
    assert (E : READY = RUNNING); [|discriminate E].
    eapply in_state_fun; [exact H|].
    eexists; split; [vm_compute; reflexivity|reflexivity].
Qed.

(** C4, amended: when the current task and the task selected by
    [sched_get_next_task] both exist, [sched_run] completes; afterwards the
    current-task pointer is the selected task and that task is [RUNNING].
    The previously current task keeps the state it had before the call
    whenever it is not the selected task itself; when it is, it is
    [RUNNING]. *)
Theorem C4_sched_run k prev new tp tn :
  sched_get_current_task k = prev ->
  sched_get_next_task k = Ok new ->
  prev <> NULL -> tasks k !! prev = Some tp -> tasks k !! new = Some tn ->
  exists k',
    sched_run k = Ok k' /\
    sched_get_current_task k' = new /\
    in_state k' new RUNNING /\
    (prev <> new -> in_state k' prev (state tp)) /\
    (prev = new -> in_state k' prev RUNNING) /\
    run_queue k' = run_queue k.
Proof.
  intros Hcur Hnext Hprev Hlp Hln.
  assert (Hnew : new <> NULL).
  { apply get_next_inv in Hnext as (p & [_ Hne] & _). exact Hne. }
  unfold sched_run. rewrite Hcur, Hnext. cbn [bind].
  unfold task_set_state. rewrite (deref_Ok k new tn) by auto. cbn [bind].
  unfold sched_switch, _switch_to, sched_set_current_task.
  destruct (Z.eq_dec prev new) as [->|Hne].
  - rewrite (deref_Ok _ new (set_state tn RUNNING))
      by (auto; cbn; apply lookup_insert_eq).
    cbn [bind].
    rewrite (deref_Ok _ new (set_thread (set_state tn RUNNING) (cpu k)))
      by (auto; cbn; apply lookup_insert_eq).
    cbn [bind]. eexists. split; [reflexivity|]. cbn.
    assert (Hin : in_state
              (with_cpu
                 (with_tasks (with_current_task
                      (with_tasks k (<[new := set_state tn RUNNING]> (tasks k))) new)
                    (<[new := set_thread (set_state tn RUNNING) (cpu k)]>
                       (<[new := set_state tn RUNNING]> (tasks k))))
                 (cpu k))
              new RUNNING).
    { eexists. split; [cbn; apply lookup_insert_eq|reflexivity]. }
    repeat split; auto. intros Hc. congruence.
  - rewrite (deref_Ok _ prev tp)
      by (auto; cbn; rewrite lookup_insert_ne by congruence; exact Hlp).
    cbn [bind].
    rewrite (deref_Ok _ new (set_state tn RUNNING))
      by (auto; cbn; rewrite lookup_insert_ne by congruence;
          apply lookup_insert_eq).
    cbn [bind]. eexists. split; [reflexivity|]. cbn.
    split; [reflexivity|].
    split.
    { eexists. split; [cbn; rewrite lookup_insert_ne by congruence;
                       apply lookup_insert_eq|reflexivity]. }
    split.
    { intros _. eexists. split; [cbn; apply lookup_insert_eq|reflexivity]. }
    split; [intros Hc; congruence|reflexivity].
Qed.

(** From the idle task to B: B becomes current and [RUNNING], the idle task
    stays [READY]. *)
Lemma C4_witness :
  exists k',
    sched_run ex_AB = Ok k' /\
    sched_get_current_task k' = ex_B /\
    in_state k' ex_B RUNNING /\
    (ex_idle <> ex_B -> in_state k' ex_idle (state idle_task)) /\
    (ex_idle = ex_B -> in_state k' ex_idle RUNNING) /\
    run_queue k' = run_queue ex_AB.
Proof.
  apply (C4_sched_run ex_AB ex_idle ex_B idle_task (ex_task 10 READY)).
  - reflexivity.
  - vm_compute. reflexivity.
  - discriminate.
  - vm_compute. reflexivity.
  - vm_compute. reflexivity.
Defined.

(** ** [task_create] *)

Lemma zero_twelve (l : list Z) :
  length l = 12%nat ->
  <[11%nat := 0]> (<[10%nat := 0]> (<[9%nat := 0]> (<[8%nat := 0]>
  (<[7%nat := 0]> (<[6%nat := 0]> (<[5%nat := 0]> (<[4%nat := 0]>
  (<[3%nat := 0]> (<[2%nat := 0]> (<[1%nat := 0]> (<[0%nat := 0]> l)))))))))))
  = replicate 12 0.
Proof.
  intros H.
  do 12 (destruct l as [|? l]; [discriminate H|]).
  destruct l; [reflexivity|discriminate H].
Qed.

Lemma wrap64_odd z : Z.odd (wrap64 z) = Z.odd z.
Proof.
  unfold wrap64.
  rewrite (Z.div_mod z (2 ^ 64)) at 2 by lia.
  change (2 ^ 64) with (2 * 2 ^ 63).
  rewrite <- Z.mul_assoc, Z.add_comm, Z.odd_add_mul_2. reflexivity.
Qed.

(** C3, as stated, fails: [task_create] takes no priority and tests none.
    A task whose priority field is 255, outside [0, MAX_PRIO - 1], and
    whose state is [BLOCKED] is created with the success code and is still
    [BLOCKED], with priority 255, afterwards. *)
Lemma C3_counterexample :
  let task := ex_task 255 BLOCKED in
  let r := task_create 4096 task 32768 65536 in
  ~ (0 <= prio task <= MAX_PRIO - 1) /\
  snd r = AX_OK /\ snd r <> AX_FAILURE /\
  state (fst r) = BLOCKED /\ state (fst r) <> READY.
Proof.
  cbn. unfold MAX_PRIO. repeat split; try discriminate. lia.
Qed.

(** C3, amended: [task_create] returns the success code for every task,
    whatever priority its control block holds, and leaves the state and
    the priority of the task as they were. *)
Theorem C3_task_create_checks_nothing STACK_SIZE task fn stack :
  snd (task_create STACK_SIZE task fn stack) = AX_OK /\
  state (fst (task_create STACK_SIZE task fn stack)) = state task /\
  prio (fst (task_create STACK_SIZE task fn stack)) = prio task.
Proof. repeat split. Qed.

(** C10: [task_create] returns [AX_OK]; sets [thread.ra] to [fn]; sets
    [thread.sp] to [stack + STACK_SIZE - 1] (in 64-bit arithmetic), which
    is the sum itself when it fits 64 bits and is an odd address, hence not
    16-byte aligned, when [STACK_SIZE] and the base are even; zeroes the
    twelve saved registers; sets both identity fields to 0; leaves state
    and priority alone. *)
Theorem C10_task_create STACK_SIZE task fn stack :
  length (s (thread task)) = 12%nat ->
  let r := task_create STACK_SIZE task fn stack in
  snd r = AX_OK /\
  ra (thread (fst r)) = fn /\
  sp (thread (fst r)) = wrap64 (stack + STACK_SIZE - 1) /\
  (0 <= stack + STACK_SIZE - 1 < 2 ^ 64 ->
     sp (thread (fst r)) = stack + (STACK_SIZE - 1)) /\
  (Z.even STACK_SIZE = true -> Z.even stack = true ->
     Z.odd (STACK_SIZE - 1) = true /\
     Z.odd (sp (thread (fst r))) = true /\
     sp (thread (fst r)) mod 16 <> 0) /\
  s (thread (fst r)) = replicate 12 0 /\
  task_id (fst r) = mk_task_id 0 0 /\
  state (fst r) = state task /\
  prio (fst r) = prio task.
Proof.
  intros Hlen. cbn.
  split; [reflexivity|]. split; [reflexivity|]. split; [reflexivity|].
  split; [intros H; rewrite wrap64_small by lia; lia|].
  split.
  - intros He Hb.
    assert (Ho1 : Z.odd (STACK_SIZE - 1) = true).
    { rewrite Z.odd_sub, <- Z.negb_even, He. reflexivity. }
    assert (Ho : Z.odd (wrap64 (stack + STACK_SIZE - 1)) = true).
    { rewrite wrap64_odd.
      replace (stack + STACK_SIZE - 1) with (stack + (STACK_SIZE - 1)) by lia.
      rewrite Z.odd_add, Ho1, <- Z.negb_even, Hb. reflexivity. }
    repeat split; auto.
    intros Hm.
    rewrite (Z.div_mod (wrap64 (stack + STACK_SIZE - 1)) 16) in Ho by lia.
    rewrite Hm, Z.add_0_r in Ho.
    change 16 with (2 * 8) in Ho.
    rewrite <- Z.mul_assoc, Z.odd_mul in Ho. discriminate Ho.
  - split; [apply zero_twelve; exact Hlen|]. repeat split.
Qed.

Lemma C10_witness :
  let r := task_create 4096 (ex_task 7 BLOCKED) 32768 65536 in
  snd r = AX_OK /\
  ra (thread (fst r)) = 32768 /\
  sp (thread (fst r)) = wrap64 (65536 + 4096 - 1) /\
  (0 <= 65536 + 4096 - 1 < 2 ^ 64 ->
     sp (thread (fst r)) = 65536 + (4096 - 1)) /\
  (Z.even 4096 = true -> Z.even 65536 = true ->
     Z.odd (4096 - 1) = true /\
     Z.odd (sp (thread (fst r))) = true /\
     sp (thread (fst r)) mod 16 <> 0) /\
  s (thread (fst r)) = replicate 12 0 /\
  task_id (fst r) = mk_task_id 0 0 /\
  state (fst r) = state (ex_task 7 BLOCKED) /\
  prio (fst r) = prio (ex_task 7 BLOCKED).
Proof.
  apply (C10_task_create 4096 (ex_task 7 BLOCKED) 32768 65536).
  reflexivity.
Defined.

(** ** Byte-addressed memory *)

Lemma store_le_outside n : forall m a v x,
  0 <= a -> a + Z.of_nat n <= 2 ^ 64 ->
  x < a \/ a + Z.of_nat n <= x ->
  store_le n m a v x = m x.
Proof.
  induction n as [|n IH]; intros m a v x Ha Hn Hx.
  - reflexivity.
  - cbn [store_le]. destruct n as [|n].
    + cbn [store_le]. unfold store8.
      destruct (x =? a) eqn:E; [apply Z.eqb_eq in E; lia|reflexivity].
    + rewrite wrap64_small by lia.
      rewrite IH by lia. unfold store8.
      destruct (x =? a) eqn:E; [apply Z.eqb_eq in E; lia|reflexivity].
Qed.

Lemma load_le_ext n : forall m1 m2 a,
  0 <= a -> a + Z.of_nat n <= 2 ^ 64 ->
  (forall x, a <= x < a + Z.of_nat n -> m1 x = m2 x) ->
  load_le n m1 a = load_le n m2 a.
Proof.
  induction n as [|n IH]; intros m1 m2 a Ha Hn Hx.
  - reflexivity.
  - cbn [load_le]. rewrite (Hx a) by lia. f_equal. f_equal.
    destruct n as [|n]; [reflexivity|].
    rewrite wrap64_small by lia.
    apply IH; try lia. intros x Hx'. apply Hx. lia.
Qed.

Lemma load_le_store_le n : forall m a v,
  0 <= a -> a + Z.of_nat n <= 2 ^ 64 ->
  load_le n (store_le n m a v) a = v mod 256 ^ Z.of_nat n.
Proof.
  induction n as [|n IH]; intros m a v Ha Hn.
  - cbn. rewrite Z.mod_1_r. reflexivity.
  - cbn [load_le store_le].
    replace (256 ^ Z.of_nat (S n)) with (256 * 256 ^ Z.of_nat n)
      by (rewrite Nat2Z.inj_succ, Z.pow_succ_r by lia; reflexivity).
    rewrite Z.rem_mul_r by lia.
    destruct n as [|n].
    + cbn [load_le store_le]. unfold store8. rewrite Z.eqb_refl.
      rewrite Z.mod_mod by lia. cbn. rewrite Z.mod_1_r. reflexivity.
    + rewrite wrap64_small by lia.
      rewrite IH by lia.
      rewrite store_le_outside by lia.
      unfold store8. rewrite Z.eqb_refl.
      rewrite Z.mod_mod by lia. reflexivity.
Qed.

Lemma load64_store64_same m a v :
  cell_ok a -> load64 (store64 m a v) a = wrap64 v.
Proof.
  intros [Ha Hb]. unfold load64, store64.
  rewrite load_le_store_le by (cbn; lia). reflexivity.
Qed.

Lemma apartb_true a b : apartb a b = true -> a + 8 <= b \/ b + 8 <= a.
Proof.
  unfold apartb. intros H. apply orb_true_iff in H as [H|H];
    apply Z.leb_le in H; auto.
Qed.

Lemma load64_store64_apart m a v b :
  cell_ok a -> cell_ok b -> a + 8 <= b \/ b + 8 <= a ->
  load64 (store64 m a v) b = load64 m b.
Proof.
  intros [Ha Ha'] [Hb Hb'] Hab. unfold load64, store64.
  apply load_le_ext; try (cbn; lia).
  intros x Hx. apply store_le_outside; cbn in *; lia.
Qed.

(** ** Stores through the stack pointer *)

Section StackImageProofs.

Context {target : arch}.

Lemma in_frame_true len off : in_frame len off = true -> 0 <= off /\ off + 8 <= len.
Proof.
  unfold in_frame. intros H. apply andb_true_iff in H as [H1 H2].
  apply Z.leb_le in H1. apply Z.leb_le in H2. auto.
Qed.

Lemma sp_set_load stack v m :
  cell_ok (sp_cell stack) -> load64 (sp_set stack v m) (sp_cell stack) = wrap64 v.
Proof. intros Hc. unfold sp_set. apply load64_store64_same. exact Hc. Qed.

Lemma sp_set_other stack v m a :
  cell_ok (sp_cell stack) -> cell_ok a -> sp_cell stack + 8 <= a ->
  load64 (sp_set stack v m) a = load64 m a.
Proof. intros Hc Ha Hle. unfold sp_set. apply load64_store64_apart; auto. Qed.

Lemma sp_sub_load stack n m :
  cell_ok (sp_cell stack) ->
  load64 (sp_sub stack n m) (sp_cell stack) =
  wrap64 (load64 m (sp_cell stack) - n).
Proof.
  intros Hc. unfold sp_sub. rewrite load64_store64_same by exact Hc.
  unfold wrap64. apply Z.mod_mod. lia.
Qed.

Lemma sp_sub_other stack n m a :
  cell_ok (sp_cell stack) -> cell_ok a -> sp_cell stack + 8 <= a ->
  load64 (sp_sub stack n m) a = load64 m a.
Proof. intros Hc Ha Hle. unfold sp_sub. apply load64_store64_apart; auto. Qed.

Lemma poke_eq stack off v m :
  cell_ok (load64 m (sp_cell stack) + off) ->
  poke stack off v m = store64 m (load64 m (sp_cell stack) + off) v.
Proof.
  intros [H0 H1]. unfold poke. rewrite wrap64_small by lia. reflexivity.
Qed.

(** A run of stores into the frame [[s, s + len)], which lies above the
    cell of [thread.sp]: a cell that none of the stores overlaps keeps its
    content. *)
Lemma pokes_other stack len ws : forall m a,
  cell_ok (sp_cell stack) ->
  0 <= load64 m (sp_cell stack) ->
  load64 m (sp_cell stack) + len <= 2 ^ 64 ->
  sp_cell stack + 8 <= load64 m (sp_cell stack) ->
  forallb (in_frame len) (map fst ws) = true ->
  cell_ok a ->
  (forall off, In off (map fst ws) ->
     load64 m (sp_cell stack) + off + 8 <= a \/
     a + 8 <= load64 m (sp_cell stack) + off) ->
  load64 (pokes stack ws m) a = load64 m a.
Proof.
  induction ws as [|w ws IH]; intros m a Hc Hs0 Hs1 Hcs Hin Ha Hap.
  - reflexivity.
  - cbn [map forallb] in Hin. apply andb_true_iff in Hin as [Hw Hin].
    apply in_frame_true in Hw as [Hw0 Hw1].
    assert (Hcell : cell_ok (load64 m (sp_cell stack) + fst w)) by (split; lia).
    assert (Hsp : load64 (poke stack (fst w) (snd w) m) (sp_cell stack)
                  = load64 m (sp_cell stack)).
    { rewrite poke_eq by exact Hcell.
      apply load64_store64_apart; auto. lia. }
    unfold pokes. cbn [fold_left]. fold (pokes stack ws (poke stack (fst w) (snd w) m)).
    rewrite IH; auto; try (rewrite Hsp; auto).
    + rewrite poke_eq by exact Hcell.
      apply load64_store64_apart; auto.
      apply Hap. cbn [map]. left. reflexivity.
    + intros off Hoff. apply Hap. cbn [map]. right. exact Hoff.
Qed.

Lemma pokes_sp stack len ws m :
  cell_ok (sp_cell stack) ->
  0 <= load64 m (sp_cell stack) ->
  load64 m (sp_cell stack) + len <= 2 ^ 64 ->
  sp_cell stack + 8 <= load64 m (sp_cell stack) ->
  forallb (in_frame len) (map fst ws) = true ->
  load64 (pokes stack ws m) (sp_cell stack) = load64 m (sp_cell stack).
Proof.
  intros Hc Hs0 Hs1 Hcs Hin. apply (pokes_other stack len); auto.
  intros off Hoff. right.
  rewrite forallb_forall in Hin. apply Hin, in_frame_true in Hoff. lia.
Qed.

Lemma pokes_outside stack len ws m a :
  cell_ok (sp_cell stack) ->
  0 <= load64 m (sp_cell stack) ->
  load64 m (sp_cell stack) + len <= 2 ^ 64 ->
  sp_cell stack + 8 <= load64 m (sp_cell stack) ->
  forallb (in_frame len) (map fst ws) = true ->
  cell_ok a ->
  a + 8 <= load64 m (sp_cell stack) \/ load64 m (sp_cell stack) + len <= a ->
  load64 (pokes stack ws m) a = load64 m a.
Proof.
  intros Hc Hs0 Hs1 Hcs Hin Ha Hout. apply (pokes_other stack len); auto.
  intros off Hoff.
  rewrite forallb_forall in Hin. apply Hin, in_frame_true in Hoff. lia.
Qed.

(** After the run, each slot of the frame holds the value stored in it,
    provided the slots do not overlap. *)
Lemma pokes_slots stack len ws : forall m,
  cell_ok (sp_cell stack) ->
  0 <= load64 m (sp_cell stack) ->
  load64 m (sp_cell stack) + len <= 2 ^ 64 ->
  sp_cell stack + 8 <= load64 m (sp_cell stack) ->
  forallb (in_frame len) (map fst ws) = true ->
  pairwise_apartb (map fst ws) = true ->
  forall w, In w ws ->
    load64 (pokes stack ws m) (load64 m (sp_cell stack) + fst w) = wrap64 (snd w).
Proof.
  induction ws as [|w0 ws IH]; intros m Hc Hs0 Hs1 Hcs Hin Hpw w Hw.
  - destruct Hw.
  - cbn [map forallb] in Hin. apply andb_true_iff in Hin as [Hw0 Hin].
    apply in_frame_true in Hw0 as [Hw00 Hw01].
    cbn [map pairwise_apartb] in Hpw. apply andb_true_iff in Hpw as [Hap Hpw].
    assert (Hcell : cell_ok (load64 m (sp_cell stack) + fst w0)) by (split; lia).
    assert (Hsp : load64 (poke stack (fst w0) (snd w0) m) (sp_cell stack)
                  = load64 m (sp_cell stack)).
    { rewrite poke_eq by exact Hcell.
      apply load64_store64_apart; auto. lia. }
    unfold pokes. cbn [fold_left].
    fold (pokes stack ws (poke stack (fst w0) (snd w0) m)).
    destruct Hw as [<-|Hw].
    + rewrite (pokes_other stack len); auto; try (rewrite Hsp; auto).
      * rewrite poke_eq by exact Hcell. apply load64_store64_same. exact Hcell.
      * intros off Hoff. rewrite forallb_forall in Hap.
        apply Hap, apartb_true in Hoff. lia.
    + rewrite <- Hsp. apply IH; auto; rewrite Hsp; auto.
Qed.

(** One part of the builder: lower the stack pointer by [len], then store
    into the frame so reserved.  Cells at or above the old stack pointer
    are not touched. *)
Lemma frame_step stack len ws m :
  cell_ok (sp_cell stack) ->
  sp_cell stack + 8 + len <= load64 m (sp_cell stack) ->
  load64 m (sp_cell stack) <= 2 ^ 64 ->
  0 < len ->
  forallb (in_frame len) (map fst ws) = true ->
  load64 (pokes stack ws (sp_sub stack len m)) (sp_cell stack)
  = load64 m (sp_cell stack) - len /\
  (forall a, cell_ok a -> load64 m (sp_cell stack) <= a ->
     load64 (pokes stack ws (sp_sub stack len m)) a = load64 m a) /\
  (pairwise_apartb (map fst ws) = true ->
   forall w, In w ws ->
     load64 (pokes stack ws (sp_sub stack len m))
            (load64 m (sp_cell stack) - len + fst w) = wrap64 (snd w)).
Proof.
  intros Hc Hlow Hhigh Hlen Hin.
  set (m' := pokes stack ws (sp_sub stack len m)).
  assert (Hc' := Hc). destruct Hc' as [Hc0 Hc1].
  assert (Hsub : load64 (sp_sub stack len m) (sp_cell stack)
                 = load64 m (sp_cell stack) - len).
  { rewrite sp_sub_load by exact Hc. apply wrap64_small. lia. }
  split; [|split].
  - unfold m'. rewrite (pokes_sp stack len); auto; rewrite Hsub; lia.
  - intros a Ha Hge. unfold m'.
    rewrite (pokes_outside stack len); auto; try (rewrite Hsub; lia).
    apply sp_sub_other; auto. lia.
  - intros Hpw w Hw. unfold m'. rewrite <- Hsub.
    apply (pokes_slots stack len); auto; rewrite Hsub; lia.
Qed.

Lemma task_stack_init_parts stack stack_size task_entry m :
  task_stack_init stack stack_size task_entry m =
  pokes stack callee_frame (sp_sub stack CALLEE_STACK_FRAME_LENGTH
    (pokes stack ret_word (sp_sub stack LWORD_SIZE
      (pokes stack (caller_frame task_entry) (sp_sub stack CALLER_STACK_FRAME_LENGTH
        (pokes stack kernel_frame (sp_sub stack KERNEL_STACK_FRAME_LENGTH
          (sp_set stack (wrap64 (stack + stack_size - LWORD_SIZE)) m)))))))).
Proof. reflexivity. Qed.

(** The memory the builder leaves, when the constants are sound and the
    block has room: the stack pointer, and the content of every slot. *)
Lemma task_stack_init_image stack stack_size task_entry m :
  layout_ok = true -> room stack stack_size ->
  let m' := task_stack_init stack stack_size task_entry m in
  let sp4 := stack + stack_size - frames_size in
  let sp3 := sp4 + CALLEE_STACK_FRAME_LENGTH in
  let sp2 := sp3 + LWORD_SIZE in
  let sp1 := sp2 + CALLER_STACK_FRAME_LENGTH in
  load64 (sp_set stack (wrap64 (stack + stack_size - LWORD_SIZE)) m)
         (sp_cell stack) = stack + stack_size - LWORD_SIZE /\
  load64 m' (sp_cell stack) = sp4 /\
  (forall w, In w kernel_frame -> load64 m' (sp1 + fst w) = wrap64 (snd w)) /\
  (forall w, In w (caller_frame task_entry) ->
     load64 m' (sp2 + fst w) = wrap64 (snd w)) /\
  (forall w, In w ret_word -> load64 m' (sp3 + fst w) = wrap64 (snd w)) /\
  (forall w, In w callee_frame -> load64 m' (sp4 + fst w) = wrap64 (snd w)).
Proof.
  intros Hok (Hst & Hend & Hroom) m' sp4 sp3 sp2 sp1.
  unfold layout_ok in Hok.
  do 9 (apply andb_true_iff in Hok as [Hok ?]).
  rename Hok into Hk.
  match goal with H : forallb (in_frame CALLER_STACK_FRAME_LENGTH) _ = true |- _ =>
    rename H into Hc end.
  match goal with H : forallb (in_frame LWORD_SIZE) _ = true |- _ =>
    rename H into Hr end.
  match goal with H : forallb (in_frame CALLEE_STACK_FRAME_LENGTH) _ = true |- _ =>
    rename H into He end.
  match goal with H : pairwise_apartb (map fst kernel_frame) = true |- _ =>
    rename H into Pk end.
  match goal with H : pairwise_apartb (map fst (caller_frame 0)) = true |- _ =>
    rename H into Pc end.
  match goal with H : pairwise_apartb (map fst callee_frame) = true |- _ =>
    rename H into Pe end.
  match goal with H : (0 <=? TASK_THREAD_SP) = true |- _ =>
    apply Z.leb_le in H; rename H into Hoff end.
  (* every frame is at least one slot long *)
  assert (Lk : 8 <= KERNEL_STACK_FRAME_LENGTH).
  { pose proof Hk as Hk'. cbn [map forallb kernel_frame fst] in Hk'.
    apply andb_true_iff in Hk' as [Hk' _]. apply in_frame_true in Hk'. lia. }
  assert (Lc : 8 <= CALLER_STACK_FRAME_LENGTH).
  { pose proof Hc as Hc'. cbn [map forallb caller_frame fst] in Hc'.
    apply andb_true_iff in Hc' as [Hc' _]. apply in_frame_true in Hc'. lia. }
  assert (Lr : 8 <= LWORD_SIZE).
  { pose proof Hr as Hr'. cbn [map forallb ret_word fst] in Hr'.
    apply andb_true_iff in Hr' as [Hr' _]. apply in_frame_true in Hr'. lia. }
  assert (Le : 8 <= CALLEE_STACK_FRAME_LENGTH).
  { pose proof He as He'. cbn [map forallb callee_frame fst] in He'.
    apply andb_true_iff in He' as [He' _]. apply in_frame_true in He'. lia. }
  unfold frames_size in *.
  assert (Hcell_eq : sp_cell stack = stack + TASK_THREAD_SP).
  { unfold sp_cell. apply wrap64_small. lia. }
  assert (Hcell : cell_ok (sp_cell stack)).
  { rewrite Hcell_eq. split; lia. }
  (* the working pointer before the frames *)
  set (m0 := sp_set stack (wrap64 (stack + stack_size - LWORD_SIZE)) m).
  assert (S0 : load64 m0 (sp_cell stack) = stack + stack_size - LWORD_SIZE).
  { unfold m0. rewrite sp_set_load by exact Hcell.
    unfold wrap64. rewrite Z.mod_mod by lia. apply Z.mod_small. lia. }
  (* the four parts *)
  set (m1 := pokes stack kernel_frame (sp_sub stack KERNEL_STACK_FRAME_LENGTH m0)).
  assert (F1 := frame_step stack KERNEL_STACK_FRAME_LENGTH kernel_frame m0 Hcell).
  fold m1 in F1. rewrite S0 in F1.
  destruct F1 as (S1 & K1 & V1); [lia|lia|lia|exact Hk|].
  set (m2 := pokes stack (caller_frame task_entry)
               (sp_sub stack CALLER_STACK_FRAME_LENGTH m1)).
  assert (F2 := frame_step stack CALLER_STACK_FRAME_LENGTH
                  (caller_frame task_entry) m1 Hcell).
  fold m2 in F2. rewrite S1 in F2.
  destruct F2 as (S2 & K2 & V2); [lia|lia|lia|exact Hc|].
  set (m3 := pokes stack ret_word (sp_sub stack LWORD_SIZE m2)).
  assert (F3 := frame_step stack LWORD_SIZE ret_word m2 Hcell).
  fold m3 in F3. rewrite S2 in F3.
  destruct F3 as (S3 & K3 & V3); [lia|lia|lia|exact Hr|].
  set (m4 := pokes stack callee_frame (sp_sub stack CALLEE_STACK_FRAME_LENGTH m3)).
  assert (F4 := frame_step stack CALLEE_STACK_FRAME_LENGTH callee_frame m3 Hcell).
  fold m4 in F4. rewrite S3 in F4.
  destruct F4 as (S4 & K4 & V4); [lia|lia|lia|exact He|].
  assert (Em : m' = m4) by (unfold m'; apply task_stack_init_parts).
  rewrite Em. clear Em m'.
  split; [exact S0|].
  split; [rewrite S4; unfold sp4; lia|].
  split; [|split; [|split]].
  - intros w Hw.
    assert (Hin : 0 <= fst w /\ fst w + 8 <= KERNEL_STACK_FRAME_LENGTH).
    { apply in_frame_true. rewrite forallb_forall in Hk. apply Hk.
      apply in_map. exact Hw. }
    rewrite K4, K3, K2 by (unfold sp1, sp2, sp3, sp4, cell_ok; lia).
    replace (sp1 + fst w)
      with (stack + stack_size - LWORD_SIZE - KERNEL_STACK_FRAME_LENGTH + fst w)
      by (unfold sp1, sp2, sp3, sp4; lia).
    apply V1; auto.
  - intros w Hw.
    assert (Hin : 0 <= fst w /\ fst w + 8 <= CALLER_STACK_FRAME_LENGTH).
    { apply in_frame_true. rewrite forallb_forall in Hc. apply Hc.
      apply (in_map fst) in Hw. exact Hw. }
    rewrite K4, K3 by (unfold sp2, sp3, sp4, cell_ok; lia).
    replace (sp2 + fst w)
      with (stack + stack_size - LWORD_SIZE - KERNEL_STACK_FRAME_LENGTH
            - CALLER_STACK_FRAME_LENGTH + fst w)
      by (unfold sp2, sp3, sp4; lia).
    apply V2; auto.
  - intros w Hw.
    assert (Hin : 0 <= fst w /\ fst w + 8 <= LWORD_SIZE).
    { apply in_frame_true. rewrite forallb_forall in Hr. apply Hr.
      apply in_map. exact Hw. }
    rewrite K4 by (unfold sp3, sp4, cell_ok; lia).
    replace (sp3 + fst w)
      with (stack + stack_size - LWORD_SIZE - KERNEL_STACK_FRAME_LENGTH
            - CALLER_STACK_FRAME_LENGTH - LWORD_SIZE + fst w)
      by (unfold sp3, sp4; lia).
    apply V3; auto.
  - intros w Hw.
    replace (sp4 + fst w)
      with (stack + stack_size - LWORD_SIZE - KERNEL_STACK_FRAME_LENGTH
            - CALLER_STACK_FRAME_LENGTH - LWORD_SIZE
            - CALLEE_STACK_FRAME_LENGTH + fst w)
      by (unfold sp4; lia).
    apply V4; auto.
Qed.

Lemma is_addr_wrap a : is_addr a = true -> wrap64 a = a.
Proof.
  unfold is_addr. intros H. apply andb_true_iff in H as [H0 H1].
  apply Z.leb_le in H0. apply Z.ltb_lt in H1. apply wrap64_small. lia.
Qed.

Lemma layout_ok_addrs :
  layout_ok = true ->
  wrap64 task_runtime = task_runtime /\
  wrap64 _ret_from_interrupt = _ret_from_interrupt.
Proof.
  unfold layout_ok. intros H.
  apply andb_true_iff in H as [H Hr]. apply andb_true_iff in H as [_ Ht].
  split; apply is_addr_wrap; assumption.
Qed.

(** ** Claims about the stack frame builder *)

(** C5, amended: when the constants are sound, the block lies in the
    address space with room for the frames above the cell of [thread.sp],
    the end [stack + stack_size] of the block is 16-byte aligned and the
    frames take a multiple of 16 bytes, the working pointer starts at
    [stack + stack_size - LWORD_SIZE] (the end of the block less one long
    word; nothing is rounded), and the initial stack pointer is
    [stack + stack_size - frames_size], which is 16-byte aligned and lies
    in [[stack, stack + stack_size)]. *)
Theorem C5_initial_sp stack stack_size task_entry m :
  layout_ok = true -> room stack stack_size ->
  frames_size mod 16 = 0 -> (stack + stack_size) mod 16 = 0 ->
  load64 (sp_set stack (wrap64 (stack + stack_size - LWORD_SIZE)) m)
         (sp_cell stack) = stack + stack_size - LWORD_SIZE /\
  initial_sp stack stack_size task_entry m = stack + stack_size - frames_size /\
  initial_sp stack stack_size task_entry m mod 16 = 0 /\
  stack <= initial_sp stack stack_size task_entry m < stack + stack_size.
Proof.
  intros Hok Hroom Hfs Hend.
  destruct (task_stack_init_image stack stack_size task_entry m Hok Hroom)
    as (Hstart & Hsp & _).
  unfold initial_sp. rewrite Hsp.
  split; [exact Hstart|]. split; [reflexivity|].
  destruct Hroom as (Hst & Hlim & Hfit).
  assert (Hoff : 0 <= TASK_THREAD_SP).
  { unfold layout_ok in Hok.
    do 2 (apply andb_true_iff in Hok as [Hok _]).
    apply andb_true_iff in Hok as [_ Hok]. apply Z.leb_le. exact Hok. }
  assert (Hpos : 0 < frames_size).
  { unfold layout_ok in Hok.
    do 9 (apply andb_true_iff in Hok as [Hok ?]).
    repeat match goal with
    | H : forallb (in_frame _) _ = true |- _ =>
        cbn [map forallb kernel_frame caller_frame ret_word callee_frame fst] in H;
        apply andb_true_iff in H as [H _]; apply in_frame_true in H
    end.
    unfold frames_size. lia. }
  split.
  - rewrite Zminus_mod, Hend, Hfs. reflexivity.
  - lia.
Qed.

(** C6: when the constants are sound, the block has room and the entry
    point is a 64-bit address, the builder leaves the stack pointer at
    [stack + stack_size - frames_size], and above it: in the kernel-entry
    frame, [task_runtime] in the slot of the program counter to resume at
    and zero in the return-address slot; in the caller-saved frame, the
    entry function in the slot of [a0] and zero in every other slot; zero
    in every slot of the callee-saved frame; and between these two the
    address of [_ret_from_interrupt]. *)
Theorem C6_stack_image stack stack_size task_entry m :
  layout_ok = true -> room stack stack_size -> is_addr task_entry = true ->
  let m' := task_stack_init stack stack_size task_entry m in
  let callee := load64 m' (sp_cell stack) in
  let caller := callee + CALLEE_STACK_FRAME_LENGTH + LWORD_SIZE in
  let kernel := caller + CALLER_STACK_FRAME_LENGTH in
  callee = stack + stack_size - frames_size /\
  load64 m' (kernel + KERNEL_STACK_FRAME_MEPC) = task_runtime /\
  load64 m' (kernel + KERNEL_STACK_FRAME_RA) = 0 /\
  load64 m' (caller + CALLER_STACK_FRAME_A0) = task_entry /\
  Forall (fun off => load64 m' (caller + off) = 0) caller_scratch_slots /\
  Forall (fun off => load64 m' (callee + off) = 0) callee_slots /\
  load64 m' (callee + CALLEE_STACK_FRAME_LENGTH + DWORD_SIZE)
  = _ret_from_interrupt.
Proof.
  intros Hok Hroom Hentry m' callee caller kernel.
  destruct (task_stack_init_image stack stack_size task_entry m Hok Hroom)
    as (_ & Hsp & Hk & Hc & Hr & He).
  destruct (layout_ok_addrs Hok) as [Hrt Hri].
  apply is_addr_wrap in Hentry.
  fold m' in Hsp, Hk, Hc, Hr, He. fold callee in Hsp.
  rewrite <- Hsp in Hk, Hc, Hr, He.
  fold caller in Hk, Hc. fold kernel in Hk.
  split; [exact Hsp|].
  split.
  { transitivity (wrap64 task_runtime); [|exact Hrt].
    apply (Hk (KERNEL_STACK_FRAME_MEPC, task_runtime)). cbn. tauto. }
  split.
  { apply (Hk (KERNEL_STACK_FRAME_RA, 0)). cbn. tauto. }
  split.
  { transitivity (wrap64 task_entry); [|exact Hentry].
    apply (Hc (CALLER_STACK_FRAME_A0, task_entry)). cbn. tauto. }
  split.
  { unfold caller_scratch_slots.
    repeat (apply Forall_cons; split;
            [match goal with |- load64 _ (_ + ?off) = 0 =>
               apply (Hc (off, 0)); cbn; tauto end|]).
    apply Forall_nil. trivial. }
  split.
  { unfold callee_slots, callee_frame. cbn [map fst].
    repeat (apply Forall_cons; split;
            [match goal with |- load64 _ (_ + ?off) = 0 =>
               apply (He (off, 0)); cbn; tauto end|]).
    apply Forall_nil. trivial. }
  transitivity (wrap64 _ret_from_interrupt); [|exact Hri].
  replace (callee + CALLEE_STACK_FRAME_LENGTH + DWORD_SIZE)
    with (callee + CALLEE_STACK_FRAME_LENGTH + fst (DWORD_SIZE, _ret_from_interrupt))
    by reflexivity.
  apply Hr. cbn. tauto.
Qed.

End StackImageProofs.

(** C5, as stated, fails on the RISC-V layout.  For a block ending at an
    address that is not a multiple of 16 (base 65536, size 4100) the
    initial stack pointer is not 16-byte aligned.  For a block smaller than
    the frames (base 65536, size 16) it lies below the base.  And for the
    aligned block (base 65536, size 4096) the working pointer starts 16
    bytes below [base + size], which rounding down would leave in place. *)
Lemma C5_counterexample :
  @initial_sp rv64 65536 4100 32768 zero_mem mod 16 <> 0 /\
  ~ (65536 <= @initial_sp rv64 65536 16 32768 zero_mem < 65536 + 16) /\
  (65536 + 4096) mod 16 = 0 /\
  load64 (@sp_set rv64 65536 (wrap64 (65536 + 4096 - @LWORD_SIZE rv64)) zero_mem)
         (@sp_cell rv64 65536) <> 65536 + 4096.
Proof.
  split; [vm_compute; discriminate|].
  split; [vm_compute; intros [H1 H2]; apply H1; reflexivity|].
  split; [reflexivity|].
  vm_compute. discriminate.
Qed.

Lemma rv64_room : @room rv64 65536 4096.
Proof. unfold room. repeat split; vm_compute; discriminate. Qed.

Lemma C5_witness :
  load64 (@sp_set rv64 65536 (wrap64 (65536 + 4096 - @LWORD_SIZE rv64)) zero_mem)
         (@sp_cell rv64 65536) = 65536 + 4096 - @LWORD_SIZE rv64 /\
  @initial_sp rv64 65536 4096 32768 zero_mem
  = 65536 + 4096 - @frames_size rv64 /\
  @initial_sp rv64 65536 4096 32768 zero_mem mod 16 = 0 /\
  65536 <= @initial_sp rv64 65536 4096 32768 zero_mem < 65536 + 4096.
Proof.
  apply (@C5_initial_sp rv64 65536 4096 32768 zero_mem).
  - reflexivity.
  - exact rv64_room.
  - reflexivity.
  - reflexivity.
Defined.

Lemma C6_witness :
  let m' := @task_stack_init rv64 65536 4096 32768 zero_mem in
  let callee := load64 m' (@sp_cell rv64 65536) in
  let caller := callee + @CALLEE_STACK_FRAME_LENGTH rv64 + @LWORD_SIZE rv64 in
  let kernel := caller + @CALLER_STACK_FRAME_LENGTH rv64 in
  callee = 65536 + 4096 - @frames_size rv64 /\
  load64 m' (kernel + @KERNEL_STACK_FRAME_MEPC rv64) = @task_runtime rv64 /\
  load64 m' (kernel + @KERNEL_STACK_FRAME_RA rv64) = 0 /\
  load64 m' (caller + @CALLER_STACK_FRAME_A0 rv64) = 32768 /\
  Forall (fun off => load64 m' (caller + off) = 0) (@caller_scratch_slots rv64) /\
  Forall (fun off => load64 m' (callee + off) = 0) (@callee_slots rv64) /\
  load64 m' (callee + @CALLEE_STACK_FRAME_LENGTH rv64 + @DWORD_SIZE rv64)
  = @_ret_from_interrupt rv64.
Proof.
  apply (@C6_stack_image rv64 65536 4096 32768 zero_mem).
  - reflexivity.
  - exact rv64_room.
  - reflexivity.
Defined.

(* ===================================================================== *)
(** * Part III: further properties of the code *)
(* ===================================================================== *)

(** ** The run queue *)

(** X1: on a queue of [MAX_PRIO] cells [sched_get_next_task] has exactly
    two outcomes.  Either some cell is occupied, and it returns the task of
    an occupied cell; or every cell is empty, the index wraps from 0 to 255
    and the function reads [run_queue[255]], outside the array.  The scan
    never needs more than the 256 values of its index. *)
Theorem X1_get_next_outcomes k :
  queue_wf k ->
  sched_get_next_task k <> OutOfFuel /\
  ((exists p t, holds k p t /\ sched_get_next_task k = Ok t) \/
   ((forall q, 0 <= q < MAX_PRIO -> empty_level k q) /\
    sched_get_next_task k = Fault)).
Proof.
  intros Hwf. pose proof (get_next_total k Hwf) as H. split; [|exact H].
  destruct H as [(p & t & _ & ->)|[_ ->]]; discriminate.
Qed.

Lemma X1_witness :
  sched_get_next_task ex_AB <> OutOfFuel /\
  ((exists p t, holds ex_AB p t /\ sched_get_next_task ex_AB = Ok t) \/
   ((forall q, 0 <= q < MAX_PRIO -> empty_level ex_AB q) /\
    sched_get_next_task ex_AB = Fault)).
Proof. apply (X1_get_next_outcomes ex_AB). reflexivity. Defined.

(** X2: whatever [sched_get_next_task] returns is a non-null pointer found
    in a cell of the queue, and no occupied cell lies at a higher level:
    the selected level is the maximum of the occupied ones. *)
Theorem X2_get_next_is_maximal k r :
  sched_get_next_task k = Ok r ->
  r <> NULL /\
  exists p, holds k p r /\ forall q t, holds k q t -> q <= p.
Proof.
  intros Hg. apply get_next_inv in Hg as (p & Hh & Hab).
  split; [apply Hh|]. exists p. split; [exact Hh|].
  intros q t [[Hq Hl] Ht].
  destruct (Z_le_gt_dec q p) as [Hle|Hgt]; [exact Hle|].
  exfalso. destruct (Hab q) as [_ He]; [lia|]. congruence.
Qed.

Lemma X2_witness :
  ex_B <> NULL /\
  exists p, holds ex_AB p ex_B /\ forall q t, holds ex_AB q t -> q <= p.
Proof.
  apply (X2_get_next_is_maximal ex_AB ex_B). vm_compute. reflexivity.
Defined.

(** X3: a priority of [MAX_PRIO] or more, which the [uint8_t] field can
    hold (255), indexes the run queue outside its [MAX_PRIO] cells: for
    such a task [sched_add_task] and [sched_remove_task] are undefined. *)
Theorem X3_priority_out_of_range k task t :
  task <> NULL -> tasks k !! task = Some t -> MAX_PRIO <= prio t ->
  sched_add_task task k = Fault /\ sched_remove_task task k = Fault.
Proof.
  intros Hn Hl Hp. unfold sched_add_task, sched_remove_task.
  rewrite (deref_Ok k task t) by auto. cbn [bind]. unfold rq_write.
  assert (E : (prio t <? MAX_PRIO) = false) by (apply Z.ltb_ge; exact Hp).
  rewrite E, andb_false_r. cbn. split; reflexivity.
Qed.

Lemma X3_witness :
  let k := with_tasks ex_init (<[ex_C := ex_task 255 READY]> (tasks ex_init)) in
  sched_add_task ex_C k = Fault /\ sched_remove_task ex_C k = Fault.
Proof.
  apply (X3_priority_out_of_range _ ex_C (ex_task 255 READY)).
  - discriminate.
  - vm_compute. reflexivity.
  - vm_compute. discriminate.
Defined.

(** ** Sequences of calls *)

Lemma run_call_inv c k k' :
  run_call c k = Ok k' ->
  exists t,
    call_level k c = Some (prio t) /\
    0 <= prio t < MAX_PRIO /\
    (Z.to_nat (prio t) < length (run_queue k))%nat /\
    k' = with_run_queue k (<[Z.to_nat (prio t) := call_value c]> (run_queue k)).
Proof.
  destruct c as [task|task]; cbn [run_call call_level call_value]; intros H.
  - apply sched_add_task_inv in H as (t & Hn & Hl & Hp & Hlen & ->).
    exists t. rewrite Hl. split; [reflexivity|]. split; [lia|].
    split; [exact Hlen|reflexivity].
  - apply sched_remove_task_inv in H as (t & Hn & Hl & Hp & Hlen & ->).
    exists t. rewrite Hl. split; [reflexivity|]. split; [lia|].
    split; [exact Hlen|reflexivity].
Qed.

Lemma add_keeps_consistent k task t :
  tasks k !! task = Some t -> 0 <= prio t ->
  (Z.to_nat (prio t) < length (run_queue k))%nat ->
  queue_consistent k ->
  queue_consistent
    (with_run_queue k (<[Z.to_nat (prio t) := task]> (run_queue k))).
Proof.
  intros Hl Hp Hlen Hc q x [[Hq Hx] Hn]. cbn in Hx.
  destruct (Z.eq_dec q (prio t)) as [->|Hne].
  - rewrite insert_slot_same in Hx by exact Hlen. injection Hx as <-.
    exists t. split; [exact Hl|reflexivity].
  - rewrite insert_slot_other in Hx by lia.
    apply (Hc q x). split; [split|]; assumption.
Qed.

Lemma run_call_keeps_invariants c k k' :
  queue_wf k -> queue_consistent k -> run_call c k = Ok k' ->
  queue_wf k' /\ queue_consistent k' /\
  tasks k' = tasks k /\ current_task k' = current_task k.
Proof.
  intros Hwf Hc Hrun.
  destruct c as [task|task]; cbn [run_call] in Hrun.
  - apply sched_add_task_inv in Hrun as (t & Hn & Hl & Hp & Hlen & ->).
    repeat split.
    + unfold queue_wf. cbn. rewrite length_insert. exact Hwf.
    + apply add_keeps_consistent; auto. lia.
  - apply sched_remove_task_inv in Hrun as (t & Hn & Hl & Hp & Hlen & ->).
    repeat split.
    + unfold queue_wf. cbn. rewrite length_insert. exact Hwf.
    + apply (remove_keeps_consistent k task t); auto. lia.
Qed.

Lemma sched_boot_consistent idle ts : queue_consistent (sched_boot idle ts).
Proof.
  intros q t [[Hq Hl] Hn]. unfold sched_boot in Hl. cbn in Hl.
  apply lookup_replicate_1 in Hl as [Hl _]. congruence.
Qed.

Lemma sched_init_boot_invariants idle ts k1 :
  sched_init idle (sched_boot idle ts) = Ok k1 ->
  queue_wf k1 /\ queue_consistent k1.
Proof.
  unfold sched_init. intros H.
  apply sched_add_task_inv in H as (t & Hn & Hl & Hp & Hlen & ->).
  split.
  - unfold queue_wf. cbn. rewrite length_insert. apply length_replicate.
  - apply (add_keeps_consistent
             (with_current_task (sched_boot idle ts) idle) idle t); auto; try lia.
    apply sched_boot_consistent.
Qed.

(** X4: [sched_add_task] and [sched_remove_task] keep the shape of the
    queue.  From a queue of [MAX_PRIO] cells in which every queued task
    sits at the level of its own priority, every sequence of calls that
    runs without fault ends in such a queue, and changes neither a task
    nor the current-task pointer. *)
Theorem X4_calls_keep_queue_shape cs : forall k k',
  queue_wf k -> queue_consistent k -> run_calls cs k = Ok k' ->
  queue_wf k' /\ queue_consistent k' /\
  tasks k' = tasks k /\ current_task k' = current_task k.
Proof.
  induction cs as [|c cs IH]; intros k k' Hwf Hc Hrun.
  - injection Hrun as <-. auto.
  - cbn [run_calls] in Hrun.
    destruct (run_call c k) as [k1| |] eqn:Hstep; cbn [bind] in Hrun;
      try discriminate.
    destruct (run_call_keeps_invariants c k k1 Hwf Hc Hstep)
      as (Hwf1 & Hc1 & Ht1 & Hcur1).
    destruct (IH k1 k' Hwf1 Hc1 Hrun) as (Hwf' & Hc' & Ht' & Hcur').
    repeat split; auto; congruence.
Qed.

Lemma X4_witness :
  exists k',
    run_calls [CallAdd ex_A; CallAdd ex_B; CallRemove ex_C; CallAdd ex_C]
              ex_init = Ok k' /\
    queue_wf k' /\ queue_consistent k' /\
    tasks k' = tasks ex_init /\ current_task k' = current_task ex_init.
Proof.
  eexists. split; [vm_compute; reflexivity|].
  eapply (X4_calls_keep_queue_shape
            [CallAdd ex_A; CallAdd ex_B; CallRemove ex_C; CallAdd ex_C] ex_init).
  - reflexivity.
  - apply (sched_init_boot_invariants ex_idle ex_tasks). exact ex_init_reached.
  - vm_compute. reflexivity.
Defined.

Lemma call_level_tasks k k' c :
  tasks k' = tasks k -> call_level k' c = call_level k c.
Proof. intros E. destruct c; cbn; rewrite E; reflexivity. Qed.

Lemma level_after_tasks cs : forall k k' p cur,
  tasks k' = tasks k -> level_after k' cs p cur = level_after k cs p cur.
Proof.
  induction cs as [|c cs IH]; intros k k' p cur E; [reflexivity|].
  cbn [level_after]. rewrite (call_level_tasks k k' c E). apply IH. exact E.
Qed.

(** X5: the levels of the queue are independent and the last call wins.
    After a sequence of calls that runs without fault, cell [p] holds what
    the last call at level [p] left there (the task of an add, [NULL] for a
    remove), or its initial content when no call was at level [p]: calls at
    other levels have no effect on it. *)
Theorem X5_last_call_at_level_wins cs : forall k k' p cur,
  0 <= p -> run_queue k !! Z.to_nat p = Some cur ->
  run_calls cs k = Ok k' ->
  run_queue k' !! Z.to_nat p = Some (level_after k cs p cur).
Proof.
  induction cs as [|c cs IH]; intros k k' p cur Hp Hcur Hrun.
  - injection Hrun as <-. exact Hcur.
  - cbn [run_calls] in Hrun.
    destruct (run_call c k) as [k1| |] eqn:Hstep; cbn [bind] in Hrun;
      try discriminate.
    apply run_call_inv in Hstep as (t & Hlev & Hpt & Hlen & Hk1).
    cbn [level_after]. rewrite Hlev.
    assert (Ht : tasks k1 = tasks k) by (rewrite Hk1; reflexivity).
    rewrite <- (level_after_tasks cs k k1 _ _ Ht).
    apply IH; auto. rewrite Hk1. cbn [run_queue with_run_queue].
    destruct (prio t =? p) eqn:E.
    + apply Z.eqb_eq in E. rewrite <- E. apply insert_slot_same. exact Hlen.
    + apply Z.eqb_neq in E. rewrite insert_slot_other by lia. exact Hcur.
Qed.

Lemma X5_witness :
  exists k',
    run_calls [CallAdd ex_A; CallAdd ex_B; CallRemove ex_C; CallAdd ex_C]
              ex_init = Ok k' /\
    run_queue k' !! Z.to_nat 5 = Some ex_C /\
    level_after ex_init
      [CallAdd ex_A; CallAdd ex_B; CallRemove ex_C; CallAdd ex_C] 5 NULL = ex_C.
Proof.
  eexists. split; [vm_compute; reflexivity|].
  split; [|vm_compute; reflexivity].
  change (Some ex_C) with
    (Some (level_after ex_init
             [CallAdd ex_A; CallAdd ex_B; CallRemove ex_C; CallAdd ex_C] 5 NULL)).
  eapply (X5_last_call_at_level_wins
            [CallAdd ex_A; CallAdd ex_B; CallRemove ex_C; CallAdd ex_C] ex_init).
  - lia.
  - vm_compute. reflexivity.
  - vm_compute. reflexivity.
Defined.

(** ** [sched_init] and [sched_run] *)

(** X6: [sched_init] does not empty the queue.  Called on a queue whose
    highest occupied level [p] is above 0, it makes the idle task the
    current task, yet [sched_get_next_task] still returns the task queued
    at [p] before the call. *)
Theorem X6_init_keeps_queued_tasks idle k p t :
  idle <> NULL -> queue_wf k -> has_prio k idle IDLE_PRIO ->
  0 < p -> holds k p t ->
  (forall q, p < q < MAX_PRIO -> empty_level k q) ->
  exists k1,
    sched_init idle k = Ok k1 /\
    current_task k1 = idle /\
    sched_get_next_task k1 = Ok t.
Proof.
  intros Hn Hwf (ti & Hl & Hpi) Hp [[Hpr Hlp] Ht] Hab.
  unfold sched_init. eexists. split.
  { apply (sched_add_task_Ok _ idle ti); auto.
    rewrite Hpi. unfold IDLE_PRIO, MAX_PRIO. lia. }
  split; [reflexivity|].
  rewrite Hpi. unfold IDLE_PRIO.
  apply (get_next_highest _ p t).
  - repeat split; auto; try lia. cbn.
    rewrite (insert_slot_other _ 0 p) by lia. exact Hlp.
  - intros q Hq. destruct (Hab q Hq) as [Hqr Hlq].
    split; [exact Hqr|]. cbn.
    rewrite (insert_slot_other _ 0 q) by lia. exact Hlq.
Qed.

Lemma X6_witness :
  exists k1,
    sched_init ex_idle ex_AB = Ok k1 /\
    current_task k1 = ex_idle /\
    sched_get_next_task k1 = Ok ex_B.
Proof.
  apply (X6_init_keeps_queued_tasks ex_idle ex_AB 10 ex_B).
  - discriminate.
  - reflexivity.
  - eexists; split; [vm_compute; reflexivity|reflexivity].
  - lia.
  - repeat split; try (unfold MAX_PRIO; lia); discriminate.
  - exact ex_AB_above_10.
Defined.

Lemma get_next_queue_only k k' :
  run_queue k' = run_queue k ->
  sched_get_next_task k' = sched_get_next_task k.
Proof. intros E. unfold sched_get_next_task. rewrite E. reflexivity. Qed.

(** When the current and the selected task exist, [sched_run] completes,
    keeps the queue, makes the selected task current and leaves it in
    memory. *)
Lemma sched_run_defined k new tp tn :
  sched_get_next_task k = Ok new ->
  current_task k <> NULL -> tasks k !! current_task k = Some tp ->
  tasks k !! new = Some tn ->
  exists k',
    sched_run k = Ok k' /\
    run_queue k' = run_queue k /\
    current_task k' = new /\
    is_Some (tasks k' !! new).
Proof.
  intros Hnext Hprev Hlp Hln.
  assert (Hnew : new <> NULL).
  { apply get_next_inv in Hnext as (p & [_ Hne] & _). exact Hne. }
  unfold sched_run, sched_get_current_task. rewrite Hnext. cbn [bind].
  unfold task_set_state. rewrite (deref_Ok k new tn) by auto. cbn [bind].
  unfold sched_switch, _switch_to, sched_set_current_task.
  destruct (Z.eq_dec (current_task k) new) as [E|Hne].
  - rewrite E.
    rewrite (deref_Ok _ new (set_state tn RUNNING))
      by (auto; cbn; apply lookup_insert_eq).
    cbn [bind].
    rewrite (deref_Ok _ new (set_thread (set_state tn RUNNING) (cpu k)))
      by (auto; cbn; apply lookup_insert_eq).
    cbn [bind]. eexists. split; [reflexivity|]. cbn.
    split; [reflexivity|]. split; [reflexivity|].
    rewrite lookup_insert_eq. eexists. reflexivity.
  - rewrite (deref_Ok _ (current_task k) tp)
      by (auto; cbn; rewrite lookup_insert_ne by congruence; exact Hlp).
    cbn [bind].
    rewrite (deref_Ok _ new (set_state tn RUNNING))
      by (auto; cbn; rewrite lookup_insert_ne by congruence;
          apply lookup_insert_eq).
    cbn [bind]. eexists. split; [reflexivity|]. cbn.
    split; [reflexivity|]. split; [reflexivity|].
    rewrite lookup_insert_ne by congruence.
    rewrite lookup_insert_eq. eexists. reflexivity.
Qed.

(** X7: [sched_run] never changes the run queue, so it does not rotate
    tasks: when a first [sched_run] completes, a second one completes too
    and keeps the same task current, and [sched_get_next_task] goes on
    returning that task until the queue is changed by an add or remove. *)
Theorem X7_run_does_not_rotate k new tp tn :
  sched_get_next_task k = Ok new ->
  current_task k <> NULL -> tasks k !! current_task k = Some tp ->
  tasks k !! new = Some tn ->
  exists k' k'',
    sched_run k = Ok k' /\ sched_run k' = Ok k'' /\
    current_task k' = new /\ current_task k'' = new /\
    run_queue k' = run_queue k /\ run_queue k'' = run_queue k /\
    sched_get_next_task k'' = Ok new.
Proof.
  intros Hnext Hprev Hlp Hln.
  destruct (sched_run_defined k new tp tn Hnext Hprev Hlp Hln)
    as (k' & Hrun & Hq & Hcur & [tn' Hln']).
  assert (Hnew : new <> NULL).
  { apply get_next_inv in Hnext as (p & [_ Hne] & _). exact Hne. }
  assert (Hnext' : sched_get_next_task k' = Ok new).
  { rewrite (get_next_queue_only k k' Hq). exact Hnext. }
  destruct (sched_run_defined k' new tn' tn') as (k'' & Hrun' & Hq' & Hcur' & _);
    auto; try (rewrite Hcur; auto).
  exists k', k''. repeat split; auto; try congruence.
  rewrite (get_next_queue_only k' k'' Hq'). exact Hnext'.
Qed.

Lemma X7_witness :
  exists k' k'',
    sched_run ex_AB = Ok k' /\ sched_run k' = Ok k'' /\
    current_task k' = ex_B /\ current_task k'' = ex_B /\
    run_queue k' = run_queue ex_AB /\ run_queue k'' = run_queue ex_AB /\
    sched_get_next_task k'' = Ok ex_B.
Proof.
  apply (X7_run_does_not_rotate ex_AB ex_B idle_task (ex_task 10 READY)).
  - vm_compute. reflexivity.
  - discriminate.
  - vm_compute. reflexivity.
  - vm_compute. reflexivity.
Defined.

(** X8: before [sched_init] the run queue is all zero, whatever tasks
    exist: the scan of [sched_get_next_task] passes cell 0, wraps and
    reads outside the array, so [sched_get_next_task] and [sched_run] are
    undefined. *)
Theorem X8_undefined_before_init idle ts :
  sched_get_next_task (sched_boot idle ts) = Fault /\
  sched_run (sched_boot idle ts) = Fault.
Proof.
  assert (H : sched_get_next_task (sched_boot idle ts) = Fault).
  { unfold sched_get_next_task. change (wrap8 (MAX_PRIO - 1)) with 254.
    rewrite scan_all_empty;
      [reflexivity | unfold MAX_PRIO; lia | | unfold scan_fuel; lia].
    intros q Hq. unfold sched_boot. cbn.
    apply lookup_replicate_2. unfold MAX_PRIO. lia. }
  split; [exact H|]. unfold sched_run. rewrite H. reflexivity.
Qed.

(** ** [task_create] *)

(** X9: [task_create] initialises the task afresh.  For control blocks
    with the twelve register cells, the result depends on the entry
    function, the stack, and the priority and state the task already has,
    and on nothing else of the old content; so creating a task twice with
    the same arguments gives what creating it once gives. *)
Theorem X9_task_create_overwrites STACK_SIZE t1 t2 fn stack :
  length (s (thread t1)) = 12%nat -> length (s (thread t2)) = 12%nat ->
  prio t1 = prio t2 -> state t1 = state t2 ->
  task_create STACK_SIZE t1 fn stack = task_create STACK_SIZE t2 fn stack /\
  task_create STACK_SIZE (fst (task_create STACK_SIZE t1 fn stack)) fn stack
  = task_create STACK_SIZE t1 fn stack.
Proof.
  intros H1 H2 Hp Hs.
  assert (E : forall t, length (s (thread t)) = 12%nat ->
            task_create STACK_SIZE t fn stack =
            (mk_task (mk_task_id 0 0) (prio t) (state t)
               (mk_thread fn (wrap64 (stack + STACK_SIZE - 1)) (replicate 12 0)),
             AX_OK)).
  { intros t Ht. rewrite <- (zero_twelve _ Ht). reflexivity. }
  split.
  - rewrite (E t1 H1), (E t2 H2), Hp, Hs. reflexivity.
  - rewrite (E t1 H1). cbn [fst]. rewrite E by reflexivity. reflexivity.
Qed.

Lemma X9_witness :
  let t1 := ex_task 7 READY in
  let t2 := mk_task (mk_task_id 3 4) 7 READY
              (mk_thread 1 2 [1; 2; 3; 4; 5; 6; 7; 8; 9; 10; 11; 12]) in
  task_create 4096 t1 32768 65536 = task_create 4096 t2 32768 65536 /\
  task_create 4096 (fst (task_create 4096 t1 32768 65536)) 32768 65536
  = task_create 4096 t1 32768 65536.
Proof.
  apply (X9_task_create_overwrites 4096); reflexivity.
Defined.

(** X10: a [stack_t] is an array of [STACK_SIZE] 64-bit cells, that is
    [8 * STACK_SIZE] bytes, while [task_create] adds [STACK_SIZE - 1] to
    the base as a byte count.  For a block that lies in the address space
    the stack pointer so computed is inside the block, in its first
    [STACK_SIZE] bytes, and [7 * STACK_SIZE] bytes below the last address
    of the block. *)
Theorem X10_task_create_sp_in_block STACK_SIZE task fn stack :
  0 < STACK_SIZE -> 0 <= stack -> stack + 8 * STACK_SIZE <= 2 ^ 64 ->
  let sp' := sp (thread (fst (task_create STACK_SIZE task fn stack))) in
  sp' = stack + STACK_SIZE - 1 /\
  stack <= sp' < stack + STACK_SIZE /\
  (stack + 8 * STACK_SIZE - 1) - sp' = 7 * STACK_SIZE.
Proof.
  intros Hs Hb He. cbn. rewrite wrap64_small by lia. lia.
Qed.

Lemma X10_witness :
  let sp' := sp (thread (fst (task_create 4096 (ex_task 7 READY) 32768 65536))) in
  sp' = 65536 + 4096 - 1 /\
  65536 <= sp' < 65536 + 4096 /\
  (65536 + 8 * 4096 - 1) - sp' = 7 * 4096.
Proof.
  apply (X10_task_create_sp_in_block 4096 (ex_task 7 READY) 32768 65536).
  - lia.
  - lia.
  - vm_compute. discriminate.
Defined.

(** ** The stack frame builder *)


Section StackFootprint.

Context {target : arch}.





(** X12: the builder does not align.  When the constants are sound, the
    block has room and the frames take a multiple of 16 bytes, the initial
    stack pointer has the same remainder modulo 16 as the end
    [stack + stack_size] of the block: it is 16-byte aligned exactly when
    the caller passes a block that ends on a 16-byte boundary. *)
Theorem X12_alignment_is_the_callers stack stack_size task_entry m :
  layout_ok = true -> room stack stack_size -> frames_size mod 16 = 0 ->
  initial_sp stack stack_size task_entry m mod 16 = (stack + stack_size) mod 16 /\
  (initial_sp stack stack_size task_entry m mod 16 = 0 <->
   (stack + stack_size) mod 16 = 0).
Proof.
  intros Hok Hroom Hfs.
  destruct (task_stack_init_image stack stack_size task_entry m Hok Hroom)
    as (_ & Hsp & _).
  unfold initial_sp. rewrite Hsp.
  assert (E : (stack + stack_size - frames_size) mod 16
              = (stack + stack_size) mod 16).
  { rewrite Zminus_mod, Hfs, Z.sub_0_r. apply Z.mod_mod. lia. }
  rewrite E. split; [reflexivity|]. split; auto.
Qed.

End StackFootprint.


Lemma rv64_room_4104 : @room rv64 65536 4104.
Proof. unfold room. repeat split; vm_compute; discriminate. Qed.

Lemma X12_witness :
  @initial_sp rv64 65536 4104 32768 zero_mem mod 16 = (65536 + 4104) mod 16 /\
  (@initial_sp rv64 65536 4104 32768 zero_mem mod 16 = 0 <->
   (65536 + 4104) mod 16 = 0).
Proof.
  apply (@X12_alignment_is_the_callers rv64 65536 4104 32768 zero_mem).
  - reflexivity.
  - exact rv64_room_4104.
  - reflexivity.
Defined.
